(** * Checkpointing and sequential batch scheduling

    A shallow embedding of
      - [src/emmental/logging/checkpointer.py]  (class [Checkpointer]) and
      - [src/emmental/schedulers/sequential_scheduler.py]
        (class [SequentialScheduler]),
    together with the properties of them that the specification states.

    Conventions of the embedding.
      - A Python [dict] with string keys is a [gmap string _]; a Python [set]
        of strings is a [gset string].  Where the source depends on the
        insertion order of a dict ([list(d.keys())[0]]) the dict is kept as
        an association list.
      - The file system and the logger are an explicit [World] threaded
        through a state-and-exception monad [IO]; a raised exception keeps
        the effects performed before it.
      - The attributes of [self] are a record, passed to and returned from
        each method.
      - Failures of the environment (a full disk, missing permissions, a
        directory removed behind the program's back, a directory where a
        file is expected) are outside the model: a write succeeds, and a
        read or a removal fails only when the file is missing.
      - Paths are the strings the program builds; two spellings of one
        path (a doubled slash, a [.] component) are two names here. *)

From Stdlib Require Import ZArith Floats Ascii String DecimalString.
From stdpp Require Import gmap strings list fin_maps.

Set Warnings "-inexact-float,-clear-no-such-hyp".
Set Default Proof Using "Type".

Local Open Scope string_scope.
Local Open Scope Z_scope.
Local Open Scope list_scope.

(** ** Python runtime: exceptions, the world, the [IO] monad *)

Module Py.

(** The exceptions the modelled code can raise (messages elided). *)
Inductive exn : Set :=
| ValueError
| IndexError
| AttributeError
| KeyError
| RuntimeError
| FileNotFoundError
| SameFileError.

(** [str(i)] and [f"{i}"] for a Python [int]. *)
Definition str_int (i : Z) : string := NilZero.string_of_int (Z.to_int i).

(** [s.replace('/', '_')]. *)
Fixpoint replace_slash (s : string) : string :=
  match s with
  | EmptyString => EmptyString
  | String c s' =>
      String (if Ascii.eqb c "/" then "_"%char else c) (replace_slash s')
  end.

(** Does [c] occur in [s]?  ([c in s] for a one-character [c].) *)
Fixpoint occurs (c : ascii) (s : string) : bool :=
  match s with
  | EmptyString => false
  | String d s' => Ascii.eqb c d || occurs c s'
  end.

(** *** [fnmatch]

    [fnmatch.translate] turns a pattern into a regular expression: [*]
    for any run of characters, [?] for any one character, [[stuff]] for a
    character class, any other character for itself.  Here the pattern
    becomes a list of tokens, and a class the list of its members. *)

(** What a character of a pattern stands for. *)
Inductive token : Set :=
| Star
| AnyChar
| Class (negated : bool) (items : list (ascii * ascii))
| Lit (c : ascii).

Definition ascii_leb (a b : ascii) : bool := (nat_of_ascii a <=? nat_of_ascii b)%nat.

(** The [stuff] between [[] and the closing []], given what follows the
    [[]: a leading [!] and a []] right after it belong to [stuff]. *)
Fixpoint until_close (s : list ascii) : option (list ascii) :=
  match s with
  | [] => None
  | c :: s' => if Ascii.eqb c "]" then Some [] else cons c <$> until_close s'
  end.

Definition class_stuff (s : list ascii) : option (list ascii) :=
  let '(bang, s1) :=
    match s with
    | c :: t => if Ascii.eqb c "!" then ([c], t) else ([], s)
    | [] => ([], s)
    end in
  let '(bracket, s2) :=
    match s1 with
    | c :: t => if Ascii.eqb c "]" then ([c], t) else ([], s1)
    | [] => ([], s1)
    end in
  (λ r, bang ++ bracket ++ r) <$> until_close s2.

(** The chunks of [stuff]: it is cut at each hyphen that makes a range; a
    hyphen does so when it is not among the first [guard] characters of
    its chunk. *)
Fixpoint chunks_of (guard : nat) (chunk : list ascii) (s : list ascii)
  : list (list ascii) :=
  match s with
  | [] => [chunk]
  | c :: s' =>
      match guard with
      | O => if Ascii.eqb c "-" then chunk :: chunks_of 2 [] s'
             else chunks_of 0 (chunk ++ [c]) s'
      | S guard' => chunks_of guard' (chunk ++ [c]) s'
      end
  end.

(** A hyphen at the very end makes no range: it goes to the chunk before. *)
Fixpoint close_chunks (chunks : list (list ascii)) : list (list ascii) :=
  match chunks with
  | [] => []
  | [chunk] => [chunk]
  | [chunk; []] => [chunk ++ ["-"%char]]
  | chunk :: chunks' => chunk :: close_chunks chunks'
  end.

(** An empty range (its start greater than its end) is dropped, from the
    right. *)
Definition drop_empty_range (chunk : list ascii) (chunks : list (list ascii))
  : list (list ascii) :=
  match chunks with
  | [] => [chunk]
  | next :: chunks' =>
      match last chunk, head next with
      | Some lo, Some hi =>
          if ascii_leb lo hi then chunk :: chunks
          else (removelast chunk ++ tail next) :: chunks'
      | _, _ => chunk :: chunks
      end
  end.

(** The chunks in a row, [None] where two of them meet in a range. *)
Fixpoint symbols (chunks : list (list ascii)) : list (option ascii) :=
  match chunks with
  | [] => []
  | [chunk] => Some <$> chunk
  | chunk :: chunks' => (Some <$> chunk) ++ None :: symbols chunks'
  end.

(** The members of a character class: [lo-hi] is a range, and any other
    character stands for itself. *)
Fixpoint items_of (syms : list (option ascii)) : list (ascii * ascii) :=
  match syms with
  | [] => []
  | Some lo :: None :: Some hi :: syms' => (lo, hi) :: items_of syms'
  | Some c :: syms' => (c, c) :: items_of syms'
  | None :: syms' => ("-"%char, "-"%char) :: items_of syms'
  end.

(** [[stuff]]: a leading [!] negates the class. *)
Definition parse_class (stuff : list ascii) : token :=
  let guard :=
    match stuff with
    | c :: _ => if Ascii.eqb c "!" then 2%nat else 1%nat
    | [] => 1%nat
    end in
  let syms := symbols (foldr drop_empty_range [] (close_chunks (chunks_of guard [] stuff))) in
  match syms with
  | Some c :: syms' =>
      if Ascii.eqb c "!" then Class true (items_of syms') else Class false (items_of syms)
  | _ => Class false (items_of syms)
  end.

(** [fnmatch.translate], as tokens; [skip] characters of [pat] have been
    read already as part of a class.  A [[] that no []] closes stands for
    itself.  (Python merges a run of [*] into one, which matches the
    same.) *)
Fixpoint translate (skip : nat) (pat : string) : list token :=
  match pat with
  | EmptyString => []
  | String c pat' =>
      match skip with
      | S skip' => translate skip' pat'
      | O =>
          if Ascii.eqb c "*" then Star :: translate 0 pat'
          else if Ascii.eqb c "?" then AnyChar :: translate 0 pat'
          else if Ascii.eqb c "[" then
            match class_stuff (list_ascii_of_string pat') with
            | Some stuff => parse_class stuff :: translate (S (length stuff)) pat'
            | None => Lit c :: translate 0 pat'
            end
          else Lit c :: translate 0 pat'
      end
  end.

(** Does the one-character token match [d]? *)
Definition token_char (tok : token) (d : ascii) : bool :=
  match tok with
  | Star => false
  | AnyChar => true
  | Class negated items =>
      xorb negated (existsb (λ item, ascii_leb item.1 d && ascii_leb d item.2) items)
  | Lit c => Ascii.eqb c d
  end.

Fixpoint matches (toks : list token) : string → bool :=
  match toks with
  | [] => λ name, match name with EmptyString => true | _ => false end
  | Star :: toks' =>
      fix star (name : string) : bool :=
        matches toks' name ||
        match name with
        | EmptyString => false
        | String _ name' => star name'
        end
  | tok :: toks' =>
      λ name,
        match name with
        | EmptyString => false
        | String d name' => token_char tok d && matches toks' name'
        end
  end.

(** [fnmatch.fnmatchcase(name, pat)]. *)
Definition fnmatch (pat name : string) : bool := matches (translate 0 pat) name.

(** [a.isdisjoint(b)] on sets of strings. *)
Definition isdisjoint (a b : gset string) : bool := bool_decide (a ## b).

(** *** [glob]

    [glob.has_magic]: is one of [*], [?], [[] in [s]? *)
Definition has_magic (s : string) : bool := occurs "*" s || occurs "?" s || occurs "[" s.

(** [glob._ishidden]. *)
Definition ishidden (name : string) : bool :=
  match name with
  | String c _ => Ascii.eqb c "."
  | EmptyString => false
  end.

(** [s.split("/")]. *)
Fixpoint split_path (s : string) : list string :=
  match s with
  | EmptyString => [EmptyString]
  | String c s' =>
      if Ascii.eqb c "/" then EmptyString :: split_path s'
      else match split_path s' with
           | name :: names => String c name :: names
           | [] => [String c EmptyString]
           end
  end.

(** The components of a path.  A doubled slash counts as one, as it does
    for [os.path.split] and [os.path.join] when [glob] expands a pattern. *)
Definition components (s : string) : list string :=
  match split_path s with
  | first :: names => first :: filter (λ name, negb (String.eqb name "")) names
  | [] => []
  end.

(** Does the entry [name] of a directory answer to the component [pat] of
    a pattern?  With a wildcard in it [pat] is matched against the entries
    ([glob._glob1]: an entry starting with a dot is skipped unless [pat]
    starts with one); without, it names the entry ([glob._glob0]). *)
Definition component_match (pat name : string) : bool :=
  if has_magic pat then (ishidden pat || negb (ishidden name)) && fnmatch pat name
  else String.eqb pat name.

Fixpoint components_match (pats names : list string) : bool :=
  match pats, names with
  | [], [] => true
  | pat :: pats', name :: names' => component_match pat name && components_match pats' names'
  | _, _ => false
  end.

End Py.

Export Py.

(** ** The world: directories, files and the trace of effects *)

Section World.

(** [Content] is what a [.pth] file holds. *)
Context {Content : Type}.

Inductive event : Type :=
| Makedirs (path : string)
| TorchSave (path : string)
| TorchLoad (path : string)
| CopyFile (src dst : string)
| Remove (path : string)
| MoveToDevice
| LogInfo (msg : string).

(** Paths are compared as the strings the program builds.  [trace] lists
    the effects in the order they happened. *)
Record World : Type := mkWorld {
  dirs : gset string;
  files : gmap string Content;
  trace : list event
}.

Definition IO (A : Type) : Type := World → (exn + A) * World.

#[export] Instance IO_ret : MRet IO := λ A x w, (inr x, w).

#[export] Instance IO_bind : MBind IO := λ A B f m w,
  match m w with
  | (inr x, w') => f x w'
  | (inl e, w') => (inl e, w')
  end.

Definition raise {A : Type} (e : exn) : IO A := λ w, (inl e, w).

Definition emit (e : event) (w : World) : World :=
  mkWorld (dirs w) (files w) (trace w ++ [e]).

(** [logger.info(msg)]. *)
Definition log_info (msg : string) : IO unit := λ w, (inr tt, emit (LogInfo msg) w).

(** [os.path.exists(path)]. *)
Definition path_exists (path : string) : IO bool := λ w,
  (inr (bool_decide (path ∈ dirs w) || bool_decide (is_Some (files w !! path))), w).

(** [d] is a directory of the world: one that was made, or one in which a
    file or a directory lies. *)
Definition is_directory (w : World) (d : string) : Prop :=
  d ∈ dirs w
  ∨ ∃ rest, is_Some (files w !! (d +:+ "/" +:+ rest)) ∨ d +:+ "/" +:+ rest ∈ dirs w.

(** [os.makedirs(path)]; the parents of [path] are not tracked. *)
Definition makedirs (path : string) : IO unit := λ w,
  (inr tt, emit (Makedirs path) (mkWorld ({[path]} ∪ dirs w) (files w) (trace w))).

(** [torch.save(obj, path)]: creates or overwrites the file. *)
Definition torch_save (obj : Content) (path : string) : IO unit := λ w,
  (inr tt, emit (TorchSave path) (mkWorld (dirs w) (<[path := obj]> (files w)) (trace w))).

(** [torch.load(path)]. *)
Definition torch_load (path : string) : IO Content := λ w,
  match files w !! path with
  | Some c => (inr c, emit (TorchLoad path) w)
  | None => (inl FileNotFoundError, w)
  end.

(** [shutil.copyfile(src, dst)]. *)
Definition copyfile (src dst : string) : IO unit := λ w,
  if decide (src = dst) then (inl SameFileError, w)
  else match files w !! src with
       | Some c =>
           (inr tt, emit (CopyFile src dst)
                      (mkWorld (dirs w) (<[dst := c]> (files w)) (trace w)))
       | None => (inl FileNotFoundError, w)
       end.

(** [os.remove(path)]. *)
Definition remove (path : string) : IO unit := λ w,
  match files w !! path with
  | Some _ =>
      (inr tt, emit (Remove path) (mkWorld (dirs w) (delete path (files w)) (trace w)))
  | None => (inl FileNotFoundError, w)
  end.

(** The name of [path] inside directory [dir]: [Some name] when [path] is
    [dir/name] and [name] has no further [/]. *)
Fixpoint strip_prefix (pre s : string) : option string :=
  match pre with
  | EmptyString => Some s
  | String c pre' =>
      match s with
      | String d s' => if Ascii.eqb c d then strip_prefix pre' s' else None
      | EmptyString => None
      end
  end.

Definition entry_name (dir path : string) : option string :=
  match strip_prefix (dir +:+ "/") path with
  | Some name => if occurs "/" name then None else Some name
  | None => None
  end.

(** Does [glob.glob(f"{dir}/{pat}")] list the file [path]?

    Without a wildcard in [dir], [glob] lists the entries of the
    directory [dir] that answer to [pat].  With one, [dir] is itself a
    pattern: [glob] expands it component by component into the
    directories that match, and lists the entries of each of them; the
    directory called [dir] is then looked into only if its name matches
    itself as a pattern (["run?"] does, ["run[1]"] does not).

    Files are listed, not directories: [os.remove], which is all the
    checkpointer does with the list, fails on a directory with an
    [OSError], a failure of the environment in the sense above. *)
Definition glob_match (dir pat : string) (path : string) : bool :=
  if has_magic dir
  then components_match (components (dir +:+ "/" +:+ pat)) (components path)
  else match entry_name dir path with
       | Some name => component_match pat name
       | None => false
       end.

(** [glob.glob(f"{dir}/{pat}")]. *)
Definition glob (dir pat : string) : IO (list string) := λ w,
  (inr (filter (λ p, glob_match dir pat p = true) (map_to_list (files w)).*1), w).

(** [for x in xs: body(x)]. *)
Fixpoint for_each {A : Type} (xs : list A) (body : A → IO unit) : IO unit :=
  match xs with
  | [] => mret tt
  | x :: xs' => body x ≫= λ _, for_each xs' body
  end.

(** Running a bind: the first computation, then the second on its result;
    an exception stops the sequence and keeps the world it was raised in. *)
Lemma io_bind_run {A B : Type} (m : IO A) (f : A → IO B) (w : World) :
  (m ≫= f) w
  = match m w with
    | (inr x, w') => f x w'
    | (inl e, w') => (inl e, w')
    end.
Proof. reflexivity. Qed.

Lemma io_ret_run {A : Type} (x : A) (w : World) : mret (M := IO) x w = (inr x, w).
Proof. reflexivity. Qed.

Lemma log_info_run (msg : string) (w : World) :
  log_info msg w = (inr tt, emit (LogInfo msg) w).
Proof. reflexivity. Qed.

End World.

Arguments World : clear implicits.
Arguments IO : clear implicits.

(** ** [emmental.logging.checkpointer.Checkpointer] *)

Section Checkpointer.

(** The collaborators are opaque: [V] is the type of a metric value,
    compared with [<] ([ltb]) and [>]; [Params] is what
    [model.collect_state_dict()] returns, [OptState] what
    [optimizer.state_dict()] returns and [LrState] what
    [lr_scheduler.state_dict()] returns. *)
Context {V Params OptState LrState : Type}.
Variable ltb : V → V → bool.

(** [a > b] on metric values. *)
Definition gtb (a b : V) : bool := ltb b a.

(** An [EmmentalModel], as far as the checkpointer touches it. *)
Record Model : Type := mkModel {
  name : string;
  module_pool : Params
}.

(** The dictionary [collect_state_dict] builds and [torch.save] writes. *)
Record ModelParams : Type := mkModelParams {
  mp_name : string;
  mp_module_pool : Params
}.

Record StateDict : Type := mkStateDict {
  sd_iteration : Z;
  sd_model : ModelParams;
  sd_optimizer : OptState;
  sd_lr_scheduler : option LrState;
  sd_metric_dict : gmap string V
}.

(** The part of [Meta] the constructor reads:
    [Meta.log_path] and [Meta.config["logging_config"]]. *)
Record Config : Type := mkConfig {
  cfg_log_path : string;
  cfg_evaluation_freq : Z;
  cfg_counter_unit : string;
  cfg_checkpoint_path : option string;
  cfg_checkpoint_freq : Z;
  cfg_checkpoint_metric : option (list (string * string));
  cfg_checkpoint_task_metrics : option (gmap string string);
  cfg_checkpoint_runway : Z;
  cfg_clear_intermediate_checkpoints : bool;
  cfg_clear_all_checkpoints : bool
}.

(** The attributes of a [Checkpointer]. *)
Record Checkpointer : Type := mkCheckpointer {
  checkpoint_path : string;
  checkpoint_freq : Z;
  checkpoint_unit : string;
  checkpoint_metric : option (list (string * string));
  checkpoint_all_metrics : gmap string string;
  checkpoint_runway : Z;
  clear_intermediate_checkpoints : bool;
  clear_all_checkpoints : bool;
  checkpoint_condition_met : bool;
  best_metric_dict : gmap string V
}.

Definition set_checkpoint_condition_met (b : bool) (self : Checkpointer) : Checkpointer :=
  mkCheckpointer (checkpoint_path self) (checkpoint_freq self) (checkpoint_unit self)
    (checkpoint_metric self) (checkpoint_all_metrics self) (checkpoint_runway self)
    (clear_intermediate_checkpoints self) (clear_all_checkpoints self)
    b (best_metric_dict self).

Definition set_best_metric_dict (d : gmap string V) (self : Checkpointer) : Checkpointer :=
  mkCheckpointer (checkpoint_path self) (checkpoint_freq self) (checkpoint_unit self)
    (checkpoint_metric self) (checkpoint_all_metrics self) (checkpoint_runway self)
    (clear_intermediate_checkpoints self) (clear_all_checkpoints self)
    (checkpoint_condition_met self) d.

Definition set_checkpoint_freq (f : Z) (self : Checkpointer) : Checkpointer :=
  mkCheckpointer (checkpoint_path self) f (checkpoint_unit self)
    (checkpoint_metric self) (checkpoint_all_metrics self) (checkpoint_runway self)
    (clear_intermediate_checkpoints self) (clear_all_checkpoints self)
    (checkpoint_condition_met self) (best_metric_dict self).

Abbreviation world := (World StateDict).
Abbreviation io := (IO StateDict).

(** [d.update(other)]. *)
Definition dict_update {A : Type} (d : gmap string A) (other : list (string * A))
  : gmap string A :=
  foldl (λ acc kv, <[kv.1 := kv.2]> acc) d other.

(** *** [__init__] *)

Definition init (cfg : Config) : io Checkpointer :=
  (* Set up checkpoint directory *)
  let path := default (cfg_log_path cfg) (cfg_checkpoint_path cfg) in
  (* Create checkpoint directory if necessary *)
  ex ← path_exists path;
  _ ← (if negb ex then makedirs path else mret tt);
  (* Set up checkpoint frequency *)
  let freq := cfg_evaluation_freq cfg * cfg_checkpoint_freq cfg in
  if (freq <=? 0)%Z then raise ValueError
  else
    (* Set up checkpoint unit *)
    let unit_ := cfg_counter_unit cfg in
    _ ← log_info ("Save checkpoints at " +:+ path +:+ " every " +:+ str_int freq
                   +:+ " " +:+ unit_);
    (* Collect all metrics to checkpoint *)
    let all_metrics := default ∅ (cfg_checkpoint_task_metrics cfg) in
    let all_metrics :=
      match cfg_checkpoint_metric cfg with
      | Some (kv :: rest) => dict_update all_metrics (kv :: rest)
      | Some [] | None => all_metrics
      end in
    (* Check evaluation metric mode *)
    _ ← for_each (map_to_list all_metrics) (λ '(metric, mode),
           if bool_decide (mode ∉ ["min"; "max"]) then raise ValueError
           else mret tt);
    _ ← log_info ("No checkpoints saved before " +:+ str_int (cfg_checkpoint_runway cfg)
                   +:+ " " +:+ unit_ +:+ ".");
    mret (mkCheckpointer path freq unit_ (cfg_checkpoint_metric cfg) all_metrics
            (cfg_checkpoint_runway cfg)
            (cfg_clear_intermediate_checkpoints cfg) (cfg_clear_all_checkpoints cfg)
            false ∅).

(** *** [is_new_best] *)

(** One turn of [for metric in metric_dict]; the accumulator is
    [self.best_metric_dict] and the local set [best_metric]. *)
Definition is_new_best_step (self : Checkpointer) (metric_dict : gmap string V)
    (acc : gmap string V * gset string) (metric : string)
  : gmap string V * gset string :=
  let '(best, best_metric) := acc in
  match checkpoint_all_metrics self !! metric with
  | None => acc (* continue *)
  | Some mode =>
      match metric_dict !! metric with
      | None => acc (* not reached: [metric] is a key of [metric_dict] *)
      | Some v =>
          match best !! metric with
          | None => (<[metric := v]> best, {[metric]} ∪ best_metric)
          | Some b =>
              if String.eqb mode "max" && gtb v b
              then (<[metric := v]> best, {[metric]} ∪ best_metric)
              else if String.eqb mode "min" && ltb v b
              then (<[metric := v]> best, {[metric]} ∪ best_metric)
              else acc
          end
      end
  end.

(** The loop over a given enumeration [keys] of the keys of [metric_dict]. *)
Definition is_new_best_loop (self : Checkpointer) (metric_dict : gmap string V)
    (keys : list string) : gmap string V * gset string :=
  foldl (is_new_best_step self metric_dict) (best_metric_dict self, ∅) keys.

(** [is_new_best(self, metric_dict)]: the updated [self] and the returned
    set.  Python visits the keys in insertion order, [map_to_list] in
    another one; [is_new_best_loop_order] shows the order is immaterial. *)
Definition is_new_best (self : Checkpointer) (metric_dict : gmap string V)
  : Checkpointer * gset string :=
  let '(best, best_metric) :=
    is_new_best_loop self metric_dict (map_to_list metric_dict).*1 in
  (set_best_metric_dict best self, best_metric).

(** *** [collect_state_dict] *)

Definition collect_state_dict (iteration : Z) (model : Model) (optimizer : OptState)
    (lr_scheduler : option LrState) (metric_dict : gmap string V) : StateDict :=
  let model_params := mkModelParams (name model) (module_pool model) in
  mkStateDict iteration model_params optimizer lr_scheduler metric_dict.

(** *** [checkpoint] *)

(** [f"{self.checkpoint_path}/checkpoint_{iteration}.pth"] *)
Definition checkpoint_file (self : Checkpointer) (iteration : Z) : string :=
  checkpoint_path self +:+ "/checkpoint_" +:+ str_int iteration +:+ ".pth".

(** [f"{self.checkpoint_path}/best_model_{metric.replace('/', '_')}.pth"] *)
Definition best_model_file (self : Checkpointer) (metric : string) : string :=
  checkpoint_path self +:+ "/best_model_" +:+ replace_slash metric +:+ ".pth".

Definition checkpoint (self : Checkpointer) (iteration : Z) (model : Model)
    (optimizer : OptState) (lr_scheduler : option LrState)
    (metric_dict : gmap string V) : io Checkpointer :=
  (* Check the checkpoint_runway condition is met *)
  if (iteration <? checkpoint_runway self)%Z then mret self
  else
    self ← (if negb (checkpoint_condition_met self)
               && (checkpoint_runway self <=? iteration)%Z
            then
              _ ← log_info "checkpoint_runway condition has been met. Start checkpoining.";
              mret (set_checkpoint_condition_met true self)
            else mret self);
    let state_dict :=
      collect_state_dict iteration model optimizer lr_scheduler metric_dict in
    let checkpoint_path_ := checkpoint_file self iteration in
    _ ← torch_save state_dict checkpoint_path_;
    _ ← log_info ("Save checkpoint of " +:+ str_int iteration +:+ " "
                   +:+ checkpoint_unit self +:+ " at " +:+ checkpoint_path_ +:+ ".");
    if negb (isdisjoint (dom (checkpoint_all_metrics self)) (dom metric_dict))
    then
      let '(self, new_best_metrics) := is_new_best self metric_dict in
      _ ← for_each (elements new_best_metrics) (λ metric,
             _ ← copyfile checkpoint_path_ (best_model_file self metric);
             log_info ("Save best model of metric " +:+ metric +:+ " at "
                       +:+ best_model_file self metric));
      mret self
    else mret self.

(** *** [clear] *)

Definition clear (self : Checkpointer) : io unit :=
  if clear_all_checkpoints self then
    _ ← log_info "Clear all checkpoints.";
    file_list ← glob (checkpoint_path self) "*.pth";
    for_each file_list remove
  else if clear_intermediate_checkpoints self then
    _ ← log_info "Clear all intermediate checkpoints.";
    file_list ← glob (checkpoint_path self) "checkpoint_*.pth";
    for_each file_list remove
  else mret tt.

(** *** [load_best_model] *)

(** [model._move_to_device()]. *)
Definition move_to_device : io unit := λ w, (inr tt, emit MoveToDevice w).

Definition load_best_model (self : Checkpointer) (model : Model) : io Model :=
  match checkpoint_metric self with
  | None => raise AttributeError (* [None.keys()] *)
  | Some checkpoint_metric_ =>
      match checkpoint_metric_.*1 with
      | [] => raise IndexError (* [list(...)[0]] of an empty list *)
      | metric :: _ =>
          if bool_decide (metric ∉ dom (best_metric_dict self)) then
            _ ← log_info "No best model found, use the original model.";
            mret model
          else
            (* Load the best model of checkpoint_metric *)
            let best_model_path := best_model_file self metric in
            _ ← log_info ("Loading the best model from " +:+ best_model_path +:+ ".");
            checkpoint_ ← torch_load best_model_path;
            let model :=
              mkModel (mp_name (sd_model checkpoint_))
                      (mp_module_pool (sd_model checkpoint_)) in
            _ ← move_to_device;
            mret model
      end
  end.

End Checkpointer.

(** ** [emmental.schedulers.sequential_scheduler.SequentialScheduler] *)

Section SequentialScheduler.

(** [Tensor] is what the dictionaries of a batch hold. *)
Context {Tensor : Type}.

(** A dataloader, as far as the scheduler touches it: its attributes,
    [len(dataloader)], and the [(X_dict, Y_dict)] pairs a fresh
    [iter(dataloader)] yields, in order. *)
Record DataLoader : Type := mkDataLoader {
  task_to_label_dict : gmap string string;
  uid : string;
  data_name : string;
  split : string;
  len : nat;
  batches : list (gmap string Tensor * gmap string Tensor)
}.

(** The tuple [get_batches] yields:
    [(X_dict[uid_name], X_dict, Y_dict, task_to_label_dict, data_name, split)]. *)
Definition TaskBatch : Type :=
  Tensor * gmap string Tensor * gmap string Tensor * gmap string string * string * string.

(** A generator run to its end: what it yielded and, if it stopped on an
    exception, which one. *)
Definition Generated (A : Type) : Type := list A * option exn.

(** The inner loop, [for batch in range(batch_count)], on the iterator
    [data_loader] (the batches it still has to give). *)
Fixpoint draw (task_to_label_dict_ : gmap string string) (data_name_ : string)
    (batch_count : nat) (data_loader : list (gmap string Tensor * gmap string Tensor))
    (split_ uid_name : string) : Generated TaskBatch :=
  match batch_count with
  | O => ([], None)
  | S batch_count' =>
      match data_loader with
      | [] =>
          (* [next] on an exhausted iterator raises [StopIteration]; raised
             inside a generator, it leaves it as [RuntimeError] (PEP 479,
             Python 3.7 and later). *)
          ([], Some RuntimeError)
      | (X_dict, Y_dict) :: data_loader' =>
          match X_dict !! uid_name with
          | None => ([], Some KeyError)
          | Some uids =>
              let '(rest, raised) :=
                draw task_to_label_dict_ data_name_ batch_count' data_loader'
                     split_ uid_name in
              ((uids, X_dict, Y_dict, task_to_label_dict_, data_name_, split_) :: rest,
               raised)
          end
      end
  end.

(** The outer loop over the zipped lists. *)
Fixpoint draw_all
    (zipped : list (gmap string string * (string * (nat *
                (list (gmap string Tensor * gmap string Tensor) * (string * string))))))
  : Generated TaskBatch :=
  match zipped with
  | [] => ([], None)
  | (task_to_label_dict_, (data_name_, (batch_count, (data_loader, (split_, uid_name)))))
    :: zipped' =>
      match draw task_to_label_dict_ data_name_ batch_count data_loader split_ uid_name with
      | (yielded, Some e) => (yielded, Some e)
      | (yielded, None) =>
          let '(rest, raised) := draw_all zipped' in (yielded ++ rest, raised)
      end
  end.

Definition get_batches (dataloaders : list DataLoader) : Generated TaskBatch :=
  let task_to_label_dicts := task_to_label_dict <$> dataloaders in
  let uid_names := uid <$> dataloaders in
  let data_names := data_name <$> dataloaders in
  let batch_counts := len <$> dataloaders in
  let data_loaders := batches <$> dataloaders in
  let splits := split <$> dataloaders in
  draw_all
    (zip task_to_label_dicts
       (zip data_names (zip batch_counts (zip data_loaders (zip splits uid_names))))).

(** The batch [b] of [dataloader] with the metadata of [dataloader]. *)
Definition tagged (dataloader : DataLoader)
    (b : gmap string Tensor * gmap string Tensor) : option TaskBatch :=
  uids ← b.1 !! uid dataloader;
  Some (uids, b.1, b.2, task_to_label_dict dataloader, data_name dataloader,
        split dataloader).

(** The contract of a data source: its iterator gives exactly [len]
    batches, and each has the unique-id field. *)
Definition well_formed (dataloader : DataLoader) : Prop :=
  length (batches dataloader) = len dataloader
  ∧ Forall (λ b, is_Some (b.1 !! uid dataloader)) (batches dataloader).

End SequentialScheduler.

Arguments DataLoader : clear implicits.
Arguments TaskBatch : clear implicits.

(** ** Properties of [is_new_best] *)

Section IsNewBest.

Context {V Params OptState LrState : Type}.
Variable ltb : V → V → bool.

Abbreviation checkpointer := (@Checkpointer V).

(** [v] is strictly better than the recorded [b] under [mode]. *)
Definition improves (mode : string) (v b : V) : Prop :=
  (mode = "max" ∧ ltb b v = true) ∨ (mode = "min" ∧ ltb v b = true).

(** The metrics for which a call with [metric_dict] sets a new best, given
    the tracked metrics [tracked] and the ledger [best] before the call. *)
Definition new_best (tracked : gmap string string) (best metric_dict : gmap string V)
    (m : string) : Prop :=
  ∃ v mode, metric_dict !! m = Some v ∧ tracked !! m = Some mode ∧
    (best !! m = None ∨ ∃ b, best !! m = Some b ∧ improves mode v b).

Lemma new_best_ledger_ext tracked best best' md m :
  best !! m = best' !! m → new_best tracked best md m ↔ new_best tracked best' md m.
Proof. unfold new_best. intros ->. reflexivity. Qed.

(** One turn of the loop either records [metric] as a new best or leaves
    the accumulator alone. *)
Lemma is_new_best_step_spec (self : checkpointer) md best acc metric :
  (new_best (checkpoint_all_metrics self) best md metric ∧
   ∃ v, md !! metric = Some v ∧
     is_new_best_step ltb self md (best, acc) metric
     = (<[metric := v]> best, {[metric]} ∪ acc))
  ∨ (¬ new_best (checkpoint_all_metrics self) best md metric ∧
     is_new_best_step ltb self md (best, acc) metric = (best, acc)).
Proof.
  unfold is_new_best_step, new_best, improves, gtb.
  destruct (checkpoint_all_metrics self !! metric) as [mode|] eqn:Hmode;
    [|right; split; [intros (?&?&?&?&?); discriminate | reflexivity]].
  destruct (md !! metric) as [v|] eqn:Hv;
    [|right; split; [intros (?&?&?&?&?); discriminate | reflexivity]].
  destruct (best !! metric) as [b|] eqn:Hb.
  - destruct (String.eqb_spec mode "max") as [->|Hmax]; simpl.
    + destruct (ltb b v) eqn:Hgt.
      * left. split; [|eauto]. exists v, "max". eauto 10.
      * right. split; [|reflexivity].
        intros (v'&mode'&[= <-]&[= <-]&[?|(b'&[= <-]&[[_ ?]|[? _]])]); congruence.
    + destruct (String.eqb_spec mode "min") as [->|Hmin]; simpl.
      * destruct (ltb v b) eqn:Hlt.
        -- left. split; [|eauto]. exists v, "min". eauto 10.
        -- right. split; [|reflexivity].
           intros (v'&mode'&[= <-]&[= <-]&[?|(b'&[= <-]&[[? _]|[_ ?]])]); congruence.
      * right. split; [|reflexivity].
        intros (v'&mode'&[= <-]&[= <-]&[?|(b'&[= <-]&[[? _]|[? _]])]); congruence.
  - left. split; [|eauto]. exists v, mode. eauto.
Qed.

(** The loop over distinct keys, from any accumulator. *)
Lemma foldl_is_new_best_step (self : checkpointer) md keys :
  NoDup keys →
  ∀ best acc,
    let r := foldl (is_new_best_step ltb self md) (best, acc) keys in
    let fires m := m ∈ keys ∧ new_best (checkpoint_all_metrics self) best md m in
    ∀ m,
      (m ∈ r.2 ↔ m ∈ acc ∨ fires m)
      ∧ (fires m → r.1 !! m = md !! m)
      ∧ (¬ fires m → r.1 !! m = best !! m).
Proof.
  induction 1 as [|k keys Hk Hnd IH]; intros best acc; cbv zeta; cbn [foldl].
  - intros m. split; [|split]; [set_solver | by intros [?%elem_of_nil _] | done].
  - intros m.
    destruct (is_new_best_step_spec self md best acc k)
      as [(Hnb & v & Hv & ->)|(Hnb & ->)].
    + destruct (IH (<[k := v]> best) ({[k]} ∪ acc) m) as (IH1 & IH2 & IH3).
      destruct (decide (m = k)) as [->|Hne].
      * split; [rewrite IH1; set_solver|]. split; [|set_solver].
        intros _. rewrite IH3 by (intros [? _]; done).
        by rewrite lookup_insert_eq.
      * assert (Hext : new_best (checkpoint_all_metrics self) (<[k:=v]> best) md m
                       ↔ new_best (checkpoint_all_metrics self) best md m)
          by (apply new_best_ledger_ext; by rewrite lookup_insert_ne).
        split; [rewrite IH1, Hext; set_solver|]. split.
        -- intros [Hin Hm]. apply IH2. split; [set_solver | by apply Hext].
        -- intros Hno. rewrite IH3; [by rewrite lookup_insert_ne|].
           intros [Hin Hm]. apply Hno. split; [set_solver | by apply Hext].
    + destruct (IH best acc m) as (IH1 & IH2 & IH3).
      assert (Hk' : m ∈ k :: keys ∧ new_best (checkpoint_all_metrics self) best md m
                    ↔ m ∈ keys ∧ new_best (checkpoint_all_metrics self) best md m).
      { split; [|set_solver]. intros [[->|?]%elem_of_cons ?]; done. }
      rewrite Hk'. done.
Qed.

(** [is_new_best]: the returned set, the ledger afterwards, and the rest of
    [self] (which is left as it was). *)
Lemma is_new_best_spec (self : checkpointer) md :
  let r := is_new_best ltb self md in
  r.1 = set_best_metric_dict (best_metric_dict r.1) self ∧
  ∀ m,
    (m ∈ r.2 ↔ new_best (checkpoint_all_metrics self) (best_metric_dict self) md m)
    ∧ (m ∈ r.2 → best_metric_dict r.1 !! m = md !! m)
    ∧ (m ∉ r.2 → best_metric_dict r.1 !! m = best_metric_dict self !! m).
Proof.
  unfold is_new_best, is_new_best_loop.
  pose proof (foldl_is_new_best_step self md (map_to_list md).*1
                (NoDup_fst_map_to_list md) (best_metric_dict self) ∅) as H.
  cbv zeta in H.
  destruct (foldl _ _ _) as [best' set'] eqn:E. cbn [fst snd] in *.
  split; [reflexivity|]. intros m. destruct (H m) as (H1 & H2 & H3).
  assert (Hkeys : new_best (checkpoint_all_metrics self) (best_metric_dict self) md m
                  → m ∈ (map_to_list md).*1).
  { intros (v & mode & Hv & _). apply list_elem_of_fmap. exists (m, v).
    split; [done|]. by apply elem_of_map_to_list. }
  split; [rewrite H1; set_solver|]. split.
  - intros Hm. apply H2. apply H1 in Hm. set_solver.
  - intros Hm. apply H3. intros Hf. apply Hm, H1. by right.
Qed.

(** A metric is a new best or it is not: the condition is decided by the
    lookups and the comparison. *)
Lemma new_best_decide tracked best md m :
  new_best tracked best md m ∨ ¬ new_best tracked best md m.
Proof.
  set (self := mkCheckpointer "" 0 "" None tracked 0 false false false best).
  destruct (is_new_best_step_spec self md best ∅ m) as [[? _]|[? _]]; auto.
Qed.

(** The order in which the loop visits the keys of [metric_dict] does not
    change its result: any enumeration without repetition will do. *)
Lemma is_new_best_loop_order (self : checkpointer) md keys :
  NoDup keys → (∀ k, k ∈ keys ↔ is_Some (md !! k)) →
  is_new_best_loop ltb self md keys
  = is_new_best_loop ltb self md (map_to_list md).*1.
Proof.
  intros Hnd Hkeys. unfold is_new_best_loop.
  pose proof (foldl_is_new_best_step self md keys Hnd (best_metric_dict self) ∅) as H.
  pose proof (foldl_is_new_best_step self md (map_to_list md).*1
                (NoDup_fst_map_to_list md) (best_metric_dict self) ∅) as H'.
  cbv zeta in H, H'.
  destruct (foldl _ _ keys) as [b1 s1], (foldl _ _ (map_to_list md).*1) as [b2 s2].
  cbn [fst snd] in *.
  assert (Hsame : ∀ m, m ∈ keys ↔ m ∈ (map_to_list md).*1).
  { intros m. rewrite Hkeys, list_elem_of_fmap. split.
    - intros [v Hv]. exists (m, v). split; [done|]. by apply elem_of_map_to_list.
    - intros ([k v] & -> & Hv%elem_of_map_to_list). eauto. }
  f_equal.
  - apply map_eq. intros m.
    destruct (H m) as (_ & H2 & H3), (H' m) as (_ & H2' & H3').
    destruct (new_best_decide (checkpoint_all_metrics self) (best_metric_dict self) md m)
      as [Hnb|Hnb].
    + destruct (decide (m ∈ keys)) as [Hin|Hin].
      * rewrite H2, H2'; [done| |]; (split; [|done]); [by apply Hsame | done].
      * rewrite H3, H3'; [done| |]; intros [? _]; apply Hin; [by apply Hsame | done].
    + rewrite H3, H3' by (intros [_ ?]; done). done.
  - apply leibniz_equiv, set_equiv. intros m.
    destruct (H m) as (H1 & _), (H' m) as (H1' & _).
    rewrite H1, H1', Hsame. done.
Qed.

End IsNewBest.

(** ** Properties of [checkpoint] *)

Section CheckpointFacts.

Context {V Params OptState LrState : Type}.
Variable ltb : V → V → bool.

Abbreviation ckptr := (@Checkpointer V).
Abbreviation state_dict := (@StateDict V Params OptState LrState).
Abbreviation wrld := (World state_dict).

Lemma set_checkpoint_condition_met_id (self : ckptr) :
  checkpoint_condition_met self = true → set_checkpoint_condition_met true self = self.
Proof. destruct self; simpl; intros ->; reflexivity. Qed.

Lemma set_best_metric_dict_id (self : ckptr) :
  set_best_metric_dict (best_metric_dict self) self = self.
Proof. by destruct self. Qed.

(** A per-iteration snapshot and a best-model copy never share a path. *)
Lemma checkpoint_file_ne_best_model_file (self self' : ckptr) iteration metric :
  checkpoint_path self' = checkpoint_path self →
  checkpoint_file self iteration ≠ best_model_file self' metric.
Proof.
  unfold checkpoint_file, best_model_file. intros -> H.
  apply (inj (String.append _)) in H. discriminate H.
Qed.

(** When the call's metrics and the tracked metrics are disjoint,
    [is_new_best] would change nothing. *)
Lemma is_new_best_disjoint (self : ckptr) md :
  dom (checkpoint_all_metrics self) ## dom md →
  is_new_best ltb self md = (self, ∅).
Proof.
  intros Hdisj. destruct (is_new_best_spec ltb self md) as [Hself Hm].
  destruct (is_new_best ltb self md) as [self' s] eqn:E. cbn [fst snd] in *.
  assert (Hs : s = ∅).
  { apply leibniz_equiv, set_equiv. intros m. destruct (Hm m) as (H1 & _).
    rewrite H1. split; [|set_solver]. intros (v & mode & Hv & Hmode & _).
    exfalso. apply (Hdisj m); apply elem_of_dom; eauto. }
  subst s. f_equal. rewrite Hself.
  assert (best_metric_dict self' = best_metric_dict self) as ->.
  { apply map_eq. intros m. destruct (Hm m) as (_ & _ & H3). apply H3. set_solver. }
  apply set_best_metric_dict_id.
Qed.

(** The effects of the loop that copies the snapshot [src] to the best-model
    file of each metric of [metrics]. *)
Definition copy_trace (self : ckptr) (src : string) (metrics : list string) : list event :=
  flat_map (λ metric,
      [CopyFile src (best_model_file self metric);
       LogInfo ("Save best model of metric " +:+ metric +:+ " at "
                +:+ best_model_file self metric)]) metrics.

Definition copy_files (self : ckptr) (c : state_dict) (metrics : list string)
    (fs : gmap string state_dict) : gmap string state_dict :=
  foldl (λ acc metric, <[best_model_file self metric := c]> acc) fs metrics.

Lemma for_each_copyfile (self : ckptr) src c metrics :
  (∀ metric, src ≠ best_model_file self metric) →
  ∀ w : wrld, files w !! src = Some c →
    for_each metrics (λ metric,
        _ ← copyfile src (best_model_file self metric);
        log_info ("Save best model of metric " +:+ metric +:+ " at "
                  +:+ best_model_file self metric)) w
    = (inr tt, mkWorld (dirs w) (copy_files self c metrics (files w))
                 (trace w ++ copy_trace self src metrics)).
Proof.
  intros Hne. induction metrics as [|m metrics IH]; intros w Hsrc.
  - simpl. unfold mret, IO_ret. rewrite app_nil_r. by destruct w.
  - cbn [for_each]. rewrite !io_bind_run. unfold copyfile at 1.
    rewrite decide_False by apply Hne. rewrite Hsrc.
    unfold log_info, emit. cbn [dirs files trace].
    rewrite IH by (cbn [files]; rewrite lookup_insert_ne by (intros ?; by eapply Hne); done).
    cbn [dirs files trace copy_files copy_trace flat_map foldl].
    f_equal. f_equal. rewrite <- !app_assoc. reflexivity.
Qed.

Lemma copy_files_lookup_in (self : ckptr) c metrics fs metric :
  metric ∈ metrics → copy_files self c metrics fs !! best_model_file self metric = Some c.
Proof.
  unfold copy_files. revert fs.
  induction metrics as [|m metrics IH] using rev_ind; intros fs Hin; [set_solver|].
  rewrite foldl_app. cbn [foldl].
  destruct (decide (best_model_file self m = best_model_file self metric)) as [->|Hne].
  - by rewrite lookup_insert_eq.
  - rewrite lookup_insert_ne by done. apply IH.
    apply elem_of_app in Hin as [?|Hm]; [done|].
    apply list_elem_of_singleton in Hm. by subst.
Qed.

Lemma copy_files_lookup_out (self : ckptr) c metrics fs p :
  (∀ metric, metric ∈ metrics → p ≠ best_model_file self metric) →
  copy_files self c metrics fs !! p = fs !! p.
Proof.
  unfold copy_files. revert fs.
  induction metrics as [|m metrics IH]; intros fs Hp; [done|].
  cbn [foldl]. rewrite IH by set_solver.
  rewrite lookup_insert_ne; [done|]. intros ?. eapply Hp; [|done]. set_solver.
Qed.

(** What a call past the runway leaves behind: the updated [self] and the
    world, in closed form. *)
Definition checkpoint_outcome (self : ckptr) (iteration : Z) (model : Model)
    (optimizer : OptState) (lr_scheduler : option LrState) (metric_dict : gmap string V)
    (w : wrld) : ckptr * wrld :=
  let w1 :=
    if checkpoint_condition_met self then w
    else emit (LogInfo "checkpoint_runway condition has been met. Start checkpoining.") w in
  let sd := collect_state_dict iteration model optimizer lr_scheduler metric_dict in
  let p := checkpoint_file self iteration in
  let saved :=
    LogInfo ("Save checkpoint of " +:+ str_int iteration +:+ " "
             +:+ checkpoint_unit self +:+ " at " +:+ p +:+ ".") in
  let r := is_new_best ltb (set_checkpoint_condition_met true self) metric_dict in
  (r.1,
   mkWorld (dirs w)
     (copy_files self sd (elements r.2) (<[p := sd]> (files w)))
     (trace w1 ++ [TorchSave p; saved] ++ copy_trace self p (elements r.2))).

Lemma checkpoint_past_runway (self : ckptr) iteration model optimizer lr_scheduler md
    (w : wrld) :
  (checkpoint_runway self ≤ iteration)%Z →
  checkpoint ltb self iteration model optimizer lr_scheduler md w
  = (inr (checkpoint_outcome self iteration model optimizer lr_scheduler md w).1,
     (checkpoint_outcome self iteration model optimizer lr_scheduler md w).2).
Proof.
  intros Hrun. unfold checkpoint, checkpoint_outcome.
  rewrite (proj2 (Z.ltb_ge _ _)) by done.
  rewrite (proj2 (Z.leb_le _ _)) by done. rewrite andb_true_r.
  set (self1 := set_checkpoint_condition_met true self).
  set (sd := collect_state_dict _ _ _ _ _).
  assert (Hpaths : ∀ s : ckptr, checkpoint_path s = checkpoint_path self →
            (∀ it, checkpoint_file s it = checkpoint_file self it) ∧
            (∀ m, best_model_file s m = best_model_file self m) ∧
            (∀ src l, copy_trace s src l = copy_trace self src l) ∧
            (∀ c l fs, copy_files s c l fs = copy_files self c l fs)).
  { intros s Hs. unfold copy_trace, copy_files, checkpoint_file, best_model_file.
    rewrite Hs. done. }
  assert (Hunit : checkpoint_unit self1 = checkpoint_unit self) by done.
  assert (Hall : checkpoint_all_metrics self1 = checkpoint_all_metrics self) by done.
  destruct (Hpaths self1 eq_refl) as (Hf1 & _).
  rewrite io_bind_run.
  assert (Hfirst :
    (if negb (checkpoint_condition_met self)
     then (log_info "checkpoint_runway condition has been met. Start checkpoining."
            ≫= λ _, mret self1 : IO state_dict ckptr)
     else mret self) w
    = (inr self1,
       if checkpoint_condition_met self then w
       else emit (LogInfo "checkpoint_runway condition has been met. Start checkpoining.") w)).
  { subst self1. destruct (checkpoint_condition_met self) eqn:Hmet; simpl.
    - by rewrite io_ret_run, set_checkpoint_condition_met_id.
    - reflexivity. }
  rewrite Hfirst. clear Hfirst.
  set (w1 := if checkpoint_condition_met self then w else _).
  assert (Hd1 : dirs w1 = dirs w) by (subst w1; by destruct (checkpoint_condition_met self)).
  assert (Hfs1 : files w1 = files w) by (subst w1; by destruct (checkpoint_condition_met self)).
  rewrite io_bind_run. unfold torch_save at 1.
  rewrite io_bind_run. unfold log_info at 1.
  unfold emit. cbn [dirs files trace]. rewrite Hf1, Hunit, Hall, Hd1, Hfs1.
  destruct (isdisjoint (dom (checkpoint_all_metrics self)) (dom md)) eqn:Hdisj; cbn [negb].
  - apply bool_decide_eq_true in Hdisj.
    rewrite (is_new_best_disjoint self1 md) by exact Hdisj. cbn [fst snd].
    rewrite elements_empty. cbn [copy_files copy_trace flat_map foldl].
    rewrite io_ret_run. by rewrite <- app_assoc.
  - destruct (is_new_best_spec ltb self1 md) as [Hself _].
    destruct (is_new_best ltb self1 md) as [self2 s] eqn:E. cbn [fst snd] in *.
    assert (Hp2 : checkpoint_path self2 = checkpoint_path self) by (by rewrite Hself).
    destruct (Hpaths self2 Hp2) as (_ & Hb2 & Ht2 & Hc2).
    rewrite io_bind_run.
    rewrite (for_each_copyfile self2 (checkpoint_file self iteration) sd (elements s)).
    + rewrite io_ret_run. cbn [dirs files trace]. rewrite Ht2, Hc2.
      by rewrite <- !app_assoc.
    + intros m. by apply checkpoint_file_ne_best_model_file.
    + cbn [files]. by rewrite lookup_insert_eq.
Qed.

End CheckpointFacts.

(** ** Metric values as binary64 floats

    Python's [float] is IEEE 754 binary64, the kernel's [PrimFloat.float];
    [<] is [PrimFloat.ltb].  It is irreflexive and transitive (a NaN is
    related to nothing). *)

Module Float64.

Ltac cmp_cases :=
  repeat match goal with
  | H : context [PosDef.Pos.compare_cont Eq ?a ?b] |- _ =>
      change (PosDef.Pos.compare_cont Eq a b) with (Pos.compare a b) in H
  | |- context [PosDef.Pos.compare_cont Eq ?a ?b] =>
      change (PosDef.Pos.compare_cont Eq a b) with (Pos.compare a b)
  | H : context [Z.compare ?a ?b] |- _ =>
      destruct (Z.compare_spec a b); simpl in H; try discriminate H
  | H : context [Pos.compare ?a ?b] |- _ =>
      destruct (Pos.compare_spec a b); simpl in H; try discriminate H
  | |- context [Z.compare ?a ?b] => destruct (Z.compare_spec a b); simpl
  | |- context [Pos.compare ?a ?b] => destruct (Pos.compare_spec a b); simpl
  end.

Lemma SFltb_irrefl x : SFltb x x = false.
Proof.
  unfold SFltb, SFcompare.
  destruct x as [s|s| |s m e]; try destruct s; try reflexivity;
    cmp_cases; try reflexivity; lia.
Qed.

Lemma SFltb_trans x y z : SFltb x y = true → SFltb y z = true → SFltb x z = true.
Proof.
  unfold SFltb, SFcompare.
  destruct x as [sx|sx| |sx mx ex], y as [sy|sy| |sy my ey], z as [sz|sz| |sz mz ez];
    try destruct sx; try destruct sy; try destruct sz;
    try discriminate; try reflexivity.
  all: intros H1 H2; cmp_cases; subst; try reflexivity; try lia.
Qed.

Definition ltb : float → float → bool := PrimFloat.ltb.

Lemma ltb_irrefl (x : float) : ltb x x = false.
Proof. unfold ltb. rewrite ltb_spec. apply SFltb_irrefl. Qed.

Lemma ltb_trans (x y z : float) : ltb x y = true → ltb y z = true → ltb x z = true.
Proof. unfold ltb. rewrite !ltb_spec. apply SFltb_trans. Qed.

(** A checkpointer tracking the single metric ["acc"] in mode ["max"], as
    the constructor leaves it. *)
Definition acc_max : @Checkpointer float :=
  mkCheckpointer "ckpt" 1 "epoch" (Some [("acc", "max")]) {["acc" := "max"]} 0
    false false false ∅.

(** Successive calls of [is_new_best], each with [{"acc": v}]: the final
    [self] and the set each call returned. *)
Definition feed (self : @Checkpointer float) (values : list float)
  : @Checkpointer float * list (list string) :=
  foldl (λ acc v,
           let r := is_new_best ltb acc.1 {["acc" := v]} in
           (r.1, (acc.2 ++ [elements r.2])%list))
        (self, []) values.

End Float64.

(** ** The ledger of best metrics *)

Section Ledger.

Context {V Params OptState LrState : Type}.
Variable ltb : V → V → bool.

(** [is_new_best] reads only the tracked metrics and the ledger: the
    transition flag plays no part in it. *)
Lemma is_new_best_condition_met (self : @Checkpointer V) b md :
  is_new_best ltb (set_checkpoint_condition_met b self) md
  = (set_checkpoint_condition_met b (is_new_best ltb self md).1,
     (is_new_best ltb self md).2).
Proof.
  unfold is_new_best.
  change (is_new_best_loop ltb (set_checkpoint_condition_met b self) md)
    with (is_new_best_loop ltb self md).
  by destruct (is_new_best_loop ltb self md _).
Qed.

(** The ledger a call past the runway leaves is the one [is_new_best]
    computes, whether or not [checkpoint] gets to call it. *)
Lemma checkpoint_ledger (self : @Checkpointer V) iteration (model : @Model Params)
    (optimizer : OptState) (lr_scheduler : option LrState) md w :
  (checkpoint_runway self ≤ iteration)%Z →
  ∃ self' w',
    checkpoint ltb self iteration model optimizer lr_scheduler md w = (inr self', w')
    ∧ best_metric_dict self' = best_metric_dict (is_new_best ltb self md).1
    ∧ checkpoint_all_metrics self' = checkpoint_all_metrics self
    ∧ checkpoint_runway self' = checkpoint_runway self.
Proof.
  intros Hrun. eexists _, _. split; [by apply checkpoint_past_runway|].
  unfold checkpoint_outcome. cbn [fst]. rewrite is_new_best_condition_met. cbn [fst].
  destruct (is_new_best_spec ltb self md) as [-> _]. done.
Qed.

(** One call of [checkpoint], as the training loop makes it. *)
Record Call : Type := mkCall {
  call_iteration : Z;
  call_model : @Model Params;
  call_optimizer : OptState;
  call_lr_scheduler : option LrState;
  call_metric_dict : gmap string V
}.

(** The calls of [calls], one after the other, on the same checkpointer. *)
Fixpoint checkpoints (self : @Checkpointer V) (calls : list Call)
  : IO (@StateDict V Params OptState LrState) (@Checkpointer V) :=
  match calls with
  | [] => mret self
  | c :: calls' =>
      self' ← checkpoint ltb self (call_iteration c) (call_model c) (call_optimizer c)
                (call_lr_scheduler c) (call_metric_dict c);
      checkpoints self' calls'
  end.

(** The values [metric_dict[m]] passed by [calls], in order. *)
Definition passed (m : string) (calls : list Call) : list V :=
  omap (λ c, call_metric_dict c !! m) calls.

(** Those of them passed at an iteration that has reached [runway]. *)
Definition passed_from (runway : Z) (m : string) (calls : list Call) : list V :=
  omap (λ c, if (runway <=? call_iteration c)%Z then call_metric_dict c !! m else None)
       calls.

(** [b] is the extremum of [vs] under [mode]: one of them, and none of them
    is strictly better (greater for max, less for min). *)
Definition extremal (mode : string) (b : V) (vs : list V) : Prop :=
  b ∈ vs ∧ ∀ v, v ∈ vs → ¬ improves ltb mode v b.

(** What relates the ledger to the values [vs m] seen so far for each [m]. *)
Definition ledger_inv (self : @Checkpointer V) (vs : string → list V) : Prop :=
  (∀ m b, best_metric_dict self !! m = Some b →
     ∃ mode, checkpoint_all_metrics self !! m = Some mode ∧ extremal mode b (vs m))
  ∧ (∀ m mode, checkpoint_all_metrics self !! m = Some mode →
       best_metric_dict self !! m = None → vs m = []).

Section Order.

Hypothesis ltb_irrefl : ∀ x, ltb x x = false.
Hypothesis ltb_trans : ∀ x y z, ltb x y = true → ltb y z = true → ltb x z = true.

Lemma improves_irrefl mode v : ¬ improves ltb mode v v.
Proof using ltb_irrefl. intros [[_ H]|[_ H]]; by rewrite ltb_irrefl in H. Qed.

Lemma improves_trans mode x y z :
  improves ltb mode x y → improves ltb mode y z → improves ltb mode x z.
Proof using ltb_trans.
  intros [[-> H1]|[-> H1]] [[? H2]|[? H2]]; try discriminate.
  - left. eauto.
  - right. eauto.
Qed.

(** [is_new_best] keeps the invariant, the new value (if any) added. *)
Lemma is_new_best_ledger_inv (self : @Checkpointer V) md vs :
  ledger_inv self vs →
  ledger_inv (is_new_best ltb self md).1
    (λ m, (vs m ++ match md !! m with Some v => [v] | None => [] end)%list).
Proof using ltb_irrefl ltb_trans.
  intros [Hext Hnone].
  destruct (is_new_best_spec ltb self md) as [Hself Hm].
  set (r := is_new_best ltb self md) in *.
  assert (Hall : checkpoint_all_metrics r.1 = checkpoint_all_metrics self)
    by (by rewrite Hself).
  split.
  - intros m b Hb. rewrite Hall.
    destruct (Hm m) as (Hiff & Hin & Hout).
    destruct (new_best_decide ltb (checkpoint_all_metrics self) (best_metric_dict self) md m)
      as [Hnb|Hnb].
    + pose proof (proj2 Hiff Hnb) as Hfired. rewrite Hin in Hb by done.
      destruct Hnb as (v & mode & Hv & Hmode & Hcase).
      rewrite Hv in Hb. injection Hb as <-. rewrite Hv.
      exists mode. split; [done|]. split; [set_solver|].
      intros y [Hy|Hy%list_elem_of_singleton]%elem_of_app;
        [|subst; apply improves_irrefl].
      destruct Hcase as [Hold|(b & Hold & Himp)].
      * rewrite (Hnone m mode Hmode Hold) in Hy. by apply elem_of_nil in Hy.
      * destruct (Hext m b Hold) as (mode' & Hmode' & _ & Hmax).
        assert (mode' = mode) by congruence. subst mode'.
        intros Hyv. apply (Hmax y Hy). by eapply improves_trans.
    + assert (Hnot : m ∉ r.2) by (by rewrite Hiff).
      rewrite Hout in Hb by done.
      destruct (Hext m b Hb) as (mode & Hmode & Hbin & Hmax).
      exists mode. split; [done|]. split; [set_solver|].
      intros y [Hy|Hy]%elem_of_app; [by apply Hmax|].
      destruct (md !! m) as [v|] eqn:Hv; [|by apply elem_of_nil in Hy].
      apply list_elem_of_singleton in Hy. subst y.
      intros Himp. apply Hnb. exists v, mode. eauto 10.
  - intros m mode Hmode Hb. rewrite Hall in Hmode.
    destruct (Hm m) as (Hiff & Hin & Hout).
    destruct (md !! m) as [v|] eqn:Hv.
    + exfalso.
      destruct (best_metric_dict self !! m) as [b|] eqn:Hold.
      * destruct (decide (m ∈ r.2)) as [Hf|Hf].
        -- rewrite Hin in Hb by done. congruence.
        -- rewrite Hout in Hb by done. congruence.
      * assert (Hf : m ∈ r.2) by (apply Hiff; exists v, mode; eauto).
        rewrite Hin in Hb by done. congruence.
    + rewrite app_nil_r. apply (Hnone m mode Hmode).
      rewrite <- Hb. symmetry. apply Hout. rewrite Hiff.
      intros (v & ? & ? & _). congruence.
Qed.

Lemma ledger_inv_ext (self self' : @Checkpointer V) vs vs' :
  best_metric_dict self' = best_metric_dict self →
  checkpoint_all_metrics self' = checkpoint_all_metrics self →
  (∀ m, vs' m = vs m) →
  ledger_inv self vs → ledger_inv self' vs'.
Proof.
  unfold ledger_inv. intros -> -> Hvs [H1 H2]. split.
  - intros m b Hb. rewrite Hvs. eauto.
  - intros m mode Hmode Hb. rewrite Hvs. eauto.
Qed.

Lemma passed_from_snoc runway m calls c :
  passed_from runway m (calls ++ [c])
  = (passed_from runway m calls ++
     if (runway <=? call_iteration c)%Z
     then match call_metric_dict c !! m with Some v => [v] | None => [] end
     else [])%list.
Proof.
  unfold passed_from. rewrite omap_app. f_equal. simpl.
  destruct (runway <=? call_iteration c)%Z; [|done].
  by destruct (call_metric_dict c !! m).
Qed.

(** Any sequence of calls runs to the end and keeps the invariant, over the
    values passed once the runway is reached. *)
Lemma checkpoints_ledger_inv calls :
  ∀ (self : @Checkpointer V) w prev,
    ledger_inv self (λ m, passed_from (checkpoint_runway self) m prev) →
    ∃ self' w',
      checkpoints self calls w = (inr self', w')
      ∧ checkpoint_all_metrics self' = checkpoint_all_metrics self
      ∧ ledger_inv self' (λ m, passed_from (checkpoint_runway self) m (prev ++ calls)).
Proof using ltb_irrefl ltb_trans.
  induction calls as [|c calls IH]; intros self w prev Hinv.
  - exists self, w. rewrite app_nil_r. done.
  - cbn [checkpoints]. rewrite io_bind_run.
    assert (Hstep : ∃ self1 w1,
      checkpoint ltb self (call_iteration c) (call_model c) (call_optimizer c)
        (call_lr_scheduler c) (call_metric_dict c) w = (inr self1, w1)
      ∧ checkpoint_all_metrics self1 = checkpoint_all_metrics self
      ∧ checkpoint_runway self1 = checkpoint_runway self
      ∧ ledger_inv self1 (λ m, passed_from (checkpoint_runway self) m (prev ++ [c]))).
    { destruct (Z.ltb_spec (call_iteration c) (checkpoint_runway self)) as [Hlt|Hge].
      - exists self, w. unfold checkpoint.
        rewrite (proj2 (Z.ltb_lt _ _)) by done. rewrite io_ret_run.
        split; [done|]. split; [done|]. split; [done|].
        eapply ledger_inv_ext; [done|done| |exact Hinv].
        intros m. cbv beta. rewrite passed_from_snoc.
        rewrite (proj2 (Z.leb_gt _ _)) by done. by rewrite app_nil_r.
      - destruct (checkpoint_ledger self (call_iteration c) (call_model c)
                    (call_optimizer c) (call_lr_scheduler c) (call_metric_dict c) w Hge)
          as (self1 & w1 & Hrunning & Hbest & Hall & Hrunway).
        exists self1, w1. split; [done|]. split; [done|]. split; [done|].
        eapply ledger_inv_ext;
          [exact Hbest| | |exact (is_new_best_ledger_inv self (call_metric_dict c) _ Hinv)].
        + rewrite Hall. by destruct (is_new_best_spec ltb self (call_metric_dict c)) as [-> _].
        + intros m. cbv beta. rewrite passed_from_snoc.
          by rewrite (proj2 (Z.leb_le _ _)) by done. }
    destruct Hstep as (self1 & w1 & -> & Hall1 & Hrun1 & Hinv1).
    rewrite <- Hrun1 in Hinv1.
    destruct (IH self1 w1 (prev ++ [c]) Hinv1) as (self' & w' & Hrunning & Hall' & Hinv').
    exists self', w'. split; [done|]. split; [congruence|].
    rewrite Hrun1 in Hinv'. by rewrite <- app_assoc in Hinv'.
Qed.

End Order.

End Ledger.

(** C1.  [is_new_best] returns exactly the metrics that are in both
    [metric_dict] and the tracked metrics and that either have no ledger
    entry yet, or are in mode max and strictly greater than their entry, or
    in mode min and strictly less.  The ledger holds the new value of every
    returned metric and is unchanged elsewhere; a tie is no new best; an
    untracked metric is never returned; a call of [checkpoint] past the runway
    leaves this ledger.  On binary64 values, a metric in mode max fed
    0.5, 0.3, 0.9, 0.9, 0.7 fires on the first and third call only and
    ends at 0.9. *)
Theorem is_new_best_returns_exactly_the_new_bests :
  (∀ (V Params OptState LrState : Type) (ltb : V → V → bool)
     (self : @Checkpointer V) (metric_dict : gmap string V),
     let r := is_new_best ltb self metric_dict in
     (∀ m, m ∈ r.2 ↔
        ∃ v mode, metric_dict !! m = Some v ∧ checkpoint_all_metrics self !! m = Some mode ∧
          (best_metric_dict self !! m = None ∨
           ∃ b, best_metric_dict self !! m = Some b ∧
             ((mode = "max" ∧ ltb b v = true) ∨ (mode = "min" ∧ ltb v b = true))))
     ∧ (∀ m, m ∈ r.2 → best_metric_dict r.1 !! m = metric_dict !! m)
     ∧ (∀ m, m ∉ r.2 → best_metric_dict r.1 !! m = best_metric_dict self !! m)
     ∧ (∀ m v, ltb v v = false → metric_dict !! m = Some v →
          best_metric_dict self !! m = Some v → m ∉ r.2)
     ∧ (∀ m, checkpoint_all_metrics self !! m = None → m ∉ r.2)
     ∧ (∀ iteration (model : @Model Params) (optimizer : OptState)
          (lr_scheduler : option LrState) w,
          (checkpoint_runway self ≤ iteration)%Z →
          ∃ self' w',
            checkpoint ltb self iteration model optimizer lr_scheduler metric_dict w
            = (inr self', w')
            ∧ best_metric_dict self' = best_metric_dict r.1))
  ∧ (let r := Float64.feed Float64.acc_max [0.5; 0.3; 0.9; 0.9; 0.7]%float in
     r.2 = [["acc"]; []; ["acc"]; []; []]
     ∧ best_metric_dict r.1 !! "acc" = Some 0.9%float).
Proof.
  split.
  - intros V Params OptState LrState ltb self md r.
    destruct (is_new_best_spec ltb self md) as [_ Hm]. fold r in Hm.
    assert (Hiff : ∀ m, m ∈ r.2 ↔
              new_best ltb (checkpoint_all_metrics self) (best_metric_dict self) md m)
      by (intros m; apply Hm).
    split; [exact Hiff|].
    split; [intros m; apply Hm|].
    split; [intros m; apply Hm|].
    split; [|split].
    + intros m v Hirr Hv Hb (v' & mode & Hv' & _ & [Hnone|(b & Hb' & Himp)])%Hiff.
      * congruence.
      * assert (v' = v) by congruence. assert (b = v) by congruence. subst.
        destruct Himp as [[_ ?]|[_ ?]]; congruence.
    + intros m Hnone (v' & mode & _ & Hmode & _)%Hiff. congruence.
    + intros iteration model optimizer lr_scheduler w Hrun.
      destruct (checkpoint_ledger ltb self iteration model optimizer lr_scheduler md w Hrun)
        as (self' & w' & Hrunning & Hbest & _).
      eauto.
  - vm_compute. split; reflexivity.
Qed.

(** ** The constructor *)

Section Init.

Context {V Params OptState LrState : Type}.

Abbreviation sdict := (@StateDict V Params OptState LrState).

(** [self.checkpoint_path] as the constructor sets it. *)
Definition configured_path (cfg : Config) : string :=
  default (cfg_log_path cfg) (cfg_checkpoint_path cfg).

(** The effective frequency, [evaluation_freq * checkpoint_freq]. *)
Definition effective_freq (cfg : Config) : Z :=
  cfg_evaluation_freq cfg * cfg_checkpoint_freq cfg.

(** The tracked metrics: [checkpoint_task_metrics] updated with
    [checkpoint_metric]. *)
Definition tracked_metrics (cfg : Config) : gmap string string :=
  dict_update (default ∅ (cfg_checkpoint_task_metrics cfg))
              (default [] (cfg_checkpoint_metric cfg)).

(** A mode the constructor accepts. *)
Definition valid_mode (mode : string) : Prop := mode = "min" ∨ mode = "max".

(** A configuration the constructor refuses. *)
Definition invalid_config (cfg : Config) : Prop :=
  effective_freq cfg ≤ 0
  ∨ ∃ metric mode, tracked_metrics cfg !! metric = Some mode ∧ ¬ valid_mode mode.

(** The world once the checkpoint directory is set up: as it was when the
    path exists, with the directory made otherwise. *)
Definition with_directory (path : string) (w : World sdict) : World sdict :=
  if bool_decide (path ∈ dirs w) || bool_decide (is_Some (files w !! path)) then w
  else mkWorld ({[path]} ∪ dirs w) (files w) (trace w ++ [Makedirs path]).

Lemma valid_mode_elem_of mode : mode ∉ ["min"; "max"] ↔ ¬ valid_mode mode.
Proof. unfold valid_mode. set_solver. Qed.

Lemma valid_mode_decide mode : valid_mode mode ∨ ¬ valid_mode mode.
Proof.
  unfold valid_mode.
  destruct (decide (mode = "min")), (decide (mode = "max")); tauto.
Qed.

(** The loop that checks the modes raises at the first bad one and has no
    other effect. *)
Lemma for_each_check_modes (items : list (string * string)) (w : World sdict) :
  let check := λ '(metric, mode),
    if bool_decide (mode ∉ ["min"; "max"]) then raise ValueError else mret tt in
  (Forall (λ kv, valid_mode kv.2) items ∧ for_each items check w = (inr tt, w))
  ∨ (Exists (λ kv, ¬ valid_mode kv.2) items ∧ for_each items check w = (inl ValueError, w)).
Proof.
  cbv zeta. induction items as [|[metric mode] items IH].
  - left. split; [constructor | reflexivity].
  - cbn [for_each]. rewrite io_bind_run.
    destruct (valid_mode_decide mode) as [Hv|Hv].
    + rewrite bool_decide_eq_false_2 by (by rewrite valid_mode_elem_of; intros ?).
      rewrite io_ret_run.
      destruct IH as [[Hall ->]|[Hex ->]].
      * left. split; [by constructor | done].
      * right. split; [by apply Exists_cons_tl | done].
    + rewrite bool_decide_eq_true_2 by (by apply valid_mode_elem_of).
      right. split; [by apply Exists_cons_hd | done].
Qed.

Lemma tracked_metrics_init (cfg : Config) :
  match cfg_checkpoint_metric cfg with
  | Some (kv :: rest) =>
      dict_update (default ∅ (cfg_checkpoint_task_metrics cfg)) (kv :: rest)
  | Some [] | None => default ∅ (cfg_checkpoint_task_metrics cfg)
  end = tracked_metrics cfg.
Proof. unfold tracked_metrics. by destruct (cfg_checkpoint_metric cfg) as [[|??]|]. Qed.

Lemma path_exists_makedirs (path : string) (w : World sdict) :
  (path_exists path ≫= λ ex, if negb ex then makedirs path else mret tt) w
  = (inr tt, with_directory path w).
Proof.
  rewrite io_bind_run. unfold path_exists, with_directory.
  destruct (bool_decide (path ∈ dirs w) || bool_decide (is_Some (files w !! path)));
    reflexivity.
Qed.

(** The constructor, case by case. *)
Lemma init_run (cfg : Config) (w : World sdict) :
  let w1 := with_directory (configured_path cfg) w in
  (effective_freq cfg ≤ 0 ∧ init cfg w = (inl ValueError, w1))
  ∨ (0 < effective_freq cfg ∧
     ∃ w2, dirs w2 = dirs w1 ∧ files w2 = files w1 ∧
       ((∃ metric mode, tracked_metrics cfg !! metric = Some mode ∧ ¬ valid_mode mode)
        ∧ init cfg w = (inl ValueError, w2)
        ∨ (∀ metric mode, tracked_metrics cfg !! metric = Some mode → valid_mode mode)
          ∧ init cfg w
            = (inr (mkCheckpointer (configured_path cfg) (effective_freq cfg)
                      (cfg_counter_unit cfg) (cfg_checkpoint_metric cfg)
                      (tracked_metrics cfg) (cfg_checkpoint_runway cfg)
                      (cfg_clear_intermediate_checkpoints cfg)
                      (cfg_clear_all_checkpoints cfg) false ∅), w2))).
Proof.
  cbv zeta. unfold init. fold (configured_path cfg) (effective_freq cfg).
  rewrite io_bind_run.
  assert (Hdir : path_exists (Content := sdict) (configured_path cfg) w
                 = (inr (bool_decide (configured_path cfg ∈ dirs w)
                         || bool_decide (is_Some (files w !! configured_path cfg))), w))
    by reflexivity.
  rewrite Hdir. rewrite io_bind_run.
  assert (Hmk : (if negb (bool_decide (configured_path cfg ∈ dirs w)
                          || bool_decide (is_Some (files w !! configured_path cfg)))
                 then makedirs (configured_path cfg) else mret tt) w
                = (inr tt, with_directory (configured_path cfg) w)).
  { unfold with_directory.
    destruct (bool_decide _ || bool_decide _); reflexivity. }
  rewrite Hmk. clear Hdir Hmk.
  set (w1 := with_directory (configured_path cfg) w).
  destruct (Z.leb_spec (effective_freq cfg) 0) as [Hle|Hgt].
  - left. done.
  - right. split; [done|]. rewrite io_bind_run, log_info_run.
    rewrite tracked_metrics_init. rewrite io_bind_run.
    set (w2 := emit _ w1).
    destruct (for_each_check_modes (map_to_list (tracked_metrics cfg)) w2)
      as [[Hall ->]|[Hex ->]].
    + rewrite io_bind_run, log_info_run, io_ret_run.
      eexists. split; [|split]; last first.
      { right. split; [|reflexivity].
        intros metric mode Hm%elem_of_map_to_list.
        by apply (proj1 (Forall_forall _ _) Hall (metric, mode)). }
      all: done.
    + exists w2. split; [done|]. split; [done|]. left. split; [|done].
      apply Exists_exists in Hex as ([metric mode] & Hin%elem_of_map_to_list & Hbad).
      eauto.
Qed.

End Init.

(** ** The ledger as a running best *)

Section RunningBest.

Context {V Params OptState LrState : Type}.
Variable ltb : V → V → bool.

(** The test of [is_new_best] on a metric that has an entry [b]:
    [mode == "max" and v > b], or [mode == "min" and v < b]. *)
Definition better (mode : string) (v b : V) : bool :=
  (String.eqb mode "max" && gtb ltb v b) || (String.eqb mode "min" && ltb v b).

(** The entry after one more value: the first value is taken as it is, a
    later one replaces the entry when it is strictly better. *)
Definition running_best_step (mode : string) (best : option V) (v : V) : option V :=
  match best with
  | None => Some v
  | Some b => if better mode v b then Some v else Some b
  end.

Definition running_best (mode : string) (vs : list V) : option V :=
  foldl (running_best_step mode) None vs.

(** [<] is a strict total order on [vs]: of two different values of [vs]
    one is less than the other.  On binary64 this fails for a list that
    holds NaN beside another value. *)
Definition strict_total (vs : list V) : Prop :=
  (∀ x, x ∈ vs → ltb x x = false)
  ∧ (∀ x y z, x ∈ vs → y ∈ vs → z ∈ vs →
       ltb x y = true → ltb y z = true → ltb x z = true)
  ∧ (∀ x y, x ∈ vs → y ∈ vs → x = y ∨ ltb x y = true ∨ ltb y x = true).

(** [b] is the maximum (mode max) or the minimum (mode min) of [vs]: one of
    them, and strictly better than every other one. *)
Definition greatest (mode : string) (b : V) (vs : list V) : Prop :=
  b ∈ vs ∧ ∀ v, v ∈ vs → v = b ∨ improves ltb mode b v.

(** The ledger [calls] leave behind on [self], read off the values passed
    from the runway on. *)
Definition ledger_of (self : @Checkpointer V) (calls : list (@Call V Params OptState LrState))
    (m : string) : option V :=
  match checkpoint_all_metrics self !! m with
  | Some mode => running_best mode (passed_from (checkpoint_runway self) m calls)
  | None => None
  end.

Lemma better_improves mode v b : better mode v b = true ↔ improves ltb mode v b.
Proof.
  unfold better, improves, gtb.
  rewrite orb_true_iff, !andb_true_iff, !String.eqb_eq. tauto.
Qed.

Lemma running_best_snoc mode vs v :
  running_best mode (vs ++ [v]) = running_best_step mode (running_best mode vs) v.
Proof. unfold running_best. by rewrite foldl_app. Qed.

Lemma running_best_None mode vs : running_best mode vs = None ↔ vs = [].
Proof.
  split; [|by intros ->].
  destruct vs as [|v vs _] using rev_ind; [done|].
  rewrite running_best_snoc. unfold running_best_step.
  destruct (running_best mode vs) as [b|]; [by destruct (better mode v b)|done].
Qed.

Lemma running_best_elem_of mode vs b : running_best mode vs = Some b → b ∈ vs.
Proof.
  revert b. induction vs as [|v vs IH] using rev_ind; intros b; [done|].
  rewrite running_best_snoc. unfold running_best_step.
  destruct (running_best mode vs) as [b0|].
  - destruct (better mode v b0); intros [= <-]; set_solver.
  - intros [= <-]. set_solver.
Qed.

Lemma strict_total_app vs vs' : strict_total (vs ++ vs') → strict_total vs.
Proof.
  intros (Hirr & Htrans & Htri). split; [|split].
  - intros x Hx. apply Hirr. set_solver.
  - intros x y z Hx Hy Hz. apply Htrans; set_solver.
  - intros x y Hx Hy. apply Htri; set_solver.
Qed.

(** On a strict total order the running best is the extremum. *)
Lemma running_best_greatest mode vs b :
  valid_mode mode → strict_total vs →
  running_best mode vs = Some b → greatest mode b vs.
Proof.
  intros Hmode. revert b. induction vs as [|v vs IH] using rev_ind; intros b Htot; [done|].
  rewrite running_best_snoc. unfold running_best_step.
  destruct Htot as (Hirr & Htrans & Htri).
  destruct (running_best mode vs) as [b0|] eqn:Hb0.
  - destruct (IH b0 (strict_total_app _ _ (conj Hirr (conj Htrans Htri))) eq_refl)
      as [Hin Hmax].
    destruct (better mode v b0) eqn:Hbetter; intros [= <-].
    + apply better_improves in Hbetter. split; [set_solver|].
      intros x [Hx | ->%list_elem_of_singleton]%elem_of_app; [|by left]. right.
      assert (Himp : x = b0 ∨ improves ltb mode b0 x) by auto.
      destruct Himp as [-> | Himp]; [done|].
      destruct Hbetter as [[-> H1]|[-> H1]], Himp as [[? H2]|[? H2]]; try discriminate.
      * left. split; [done|]. apply (Htrans x b0 v); set_solver.
      * right. split; [done|]. apply (Htrans v b0 x); set_solver.
    + split; [set_solver|].
      intros x [Hx | ->%list_elem_of_singleton]%elem_of_app; [by apply Hmax|].
      assert (Hnot : ¬ improves ltb mode v b0).
      { rewrite <- better_improves. by rewrite Hbetter. }
      destruct (Htri v b0) as [-> | [Hlt|Hlt]]; [set_solver|set_solver|by left| |].
      * destruct Hmode as [-> | ->].
        -- exfalso. apply Hnot. by right.
        -- right. by left.
      * destruct Hmode as [-> | ->].
        -- right. by right.
        -- exfalso. apply Hnot. by left.
  - intros [= <-]. apply running_best_None in Hb0 as ->. split; [set_solver|].
    intros x ->%list_elem_of_singleton. by left.
Qed.

(** The extremum of a strict total order is unique. *)
Lemma greatest_unique mode vs b b' :
  strict_total vs → greatest mode b vs → greatest mode b' vs → b = b'.
Proof.
  intros (Hirr & Htrans & _) [Hin Hmax] [Hin' Hmax'].
  destruct (Hmax b' Hin') as [-> | H1]; [done|].
  destruct (Hmax' b Hin) as [-> | H2]; [done|]. exfalso.
  assert (Hbb : ltb b b = true).
  { destruct H1 as [[-> H1]|[-> H1]], H2 as [[? H2]|[? H2]]; try discriminate.
    - by apply (Htrans b b' b).
    - by apply (Htrans b b' b). }
  by rewrite Hirr in Hbb.
Qed.

(** One call of [is_new_best] feeds the value of each tracked metric of
    [metric_dict] to the running best of that metric. *)
Lemma is_new_best_running (self : @Checkpointer V) md m :
  best_metric_dict (is_new_best ltb self md).1 !! m
  = match checkpoint_all_metrics self !! m, md !! m with
    | Some mode, Some v => running_best_step mode (best_metric_dict self !! m) v
    | _, _ => best_metric_dict self !! m
    end.
Proof.
  destruct (is_new_best_spec ltb self md) as [_ Hm].
  destruct (Hm m) as (Hiff & Hin & Hout).
  destruct (new_best_decide ltb (checkpoint_all_metrics self) (best_metric_dict self) md m)
    as [Hnb|Hnb].
  - rewrite Hin by (by apply Hiff).
    destruct Hnb as (v & mode & -> & -> & Hcase). unfold running_best_step.
    destruct Hcase as [->|(b & -> & Himp)]; [done|].
    apply better_improves in Himp. by rewrite Himp.
  - rewrite Hout by (by rewrite Hiff).
    destruct (checkpoint_all_metrics self !! m) as [mode|] eqn:Hmode; [|done].
    destruct (md !! m) as [v|] eqn:Hv; [|done].
    unfold running_best_step.
    destruct (best_metric_dict self !! m) as [b|] eqn:Hb.
    + destruct (better mode v b) eqn:Hbetter; [|done].
      exfalso. apply Hnb. exists v, mode. split; [done|]. split; [done|]. right.
      exists b. split; [done|]. by apply better_improves.
    + exfalso. apply Hnb. exists v, mode. eauto.
Qed.

(** Any sequence of calls runs to the end, and the ledger follows the
    running best of the values passed once the runway is reached. *)
Lemma checkpoints_running_best calls :
  ∀ (self : @Checkpointer V) w prev,
    (∀ m, best_metric_dict self !! m = ledger_of self prev m) →
    ∃ self' w',
      checkpoints ltb self calls w = (inr self', w')
      ∧ ∀ m, best_metric_dict self' !! m = ledger_of self (prev ++ calls) m.
Proof.
  induction calls as [|c calls IH]; intros self w prev Hinv.
  - exists self, w. rewrite app_nil_r. done.
  - cbn [checkpoints]. rewrite io_bind_run.
    assert (Hstep : ∃ self1 w1,
      checkpoint ltb self (call_iteration c) (call_model c) (call_optimizer c)
        (call_lr_scheduler c) (call_metric_dict c) w = (inr self1, w1)
      ∧ checkpoint_all_metrics self1 = checkpoint_all_metrics self
      ∧ checkpoint_runway self1 = checkpoint_runway self
      ∧ ∀ m, best_metric_dict self1 !! m = ledger_of self (prev ++ [c]) m).
    { destruct (Z.ltb_spec (call_iteration c) (checkpoint_runway self)) as [Hlt|Hge].
      - exists self, w. unfold checkpoint.
        rewrite (proj2 (Z.ltb_lt _ _)) by done. rewrite io_ret_run.
        split; [done|]. split; [done|]. split; [done|].
        intros m. rewrite Hinv. unfold ledger_of. rewrite passed_from_snoc.
        rewrite (proj2 (Z.leb_gt _ _)) by done. by rewrite app_nil_r.
      - destruct (checkpoint_ledger ltb self (call_iteration c) (call_model c)
                    (call_optimizer c) (call_lr_scheduler c) (call_metric_dict c) w Hge)
          as (self1 & w1 & Hrunning & Hbest & Hall & Hrunway).
        exists self1, w1. split; [done|]. split; [done|]. split; [done|].
        intros m. rewrite Hbest, is_new_best_running, Hinv. unfold ledger_of.
        rewrite passed_from_snoc. rewrite (proj2 (Z.leb_le _ _)) by done.
        destruct (checkpoint_all_metrics self !! m) as [mode|]; [|done].
        destruct (call_metric_dict c !! m) as [v|].
        + by rewrite running_best_snoc.
        + by rewrite app_nil_r. }
    destruct Hstep as (self1 & w1 & -> & Hall1 & Hrun1 & Hinv1).
    assert (Hof : ∀ calls' m, ledger_of self1 calls' m = ledger_of self calls' m).
    { intros calls' m. unfold ledger_of. by rewrite Hall1, Hrun1. }
    destruct (IH self1 w1 (prev ++ [c])) as (self' & w' & Hrunning & Hinv').
    { intros m. by rewrite Hinv1, Hof. }
    exists self', w'. split; [done|].
    intros m. by rewrite Hinv', Hof, <- app_assoc.
Qed.

End RunningBest.

(** ** Construction followed by calls, and concrete runs *)

(** [Checkpointer()] under [cfg], then the calls of [calls]. *)
Definition construct_then {V Params OptState LrState : Type} (ltb : V → V → bool)
    (cfg : Config) (calls : list (@Call V Params OptState LrState))
  : IO (@StateDict V Params OptState LrState) (@Checkpointer V) :=
  self ← init cfg;
  checkpoints ltb self calls.

Module Run.

(** Runs on binary64 metric values; model parameters, optimizer state and
    scheduler state are trivial. *)
Abbreviation state := (@StateDict float unit unit unit).

Definition empty_world : World state := mkWorld ∅ ∅ [].

(** [checkpoint(iteration, model, optimizer, None, {"acc": v})]. *)
Definition acc_call (iteration : Z) (v : float) : @Call float unit unit unit :=
  mkCall iteration (mkModel "m" tt) tt None {["acc" := v]}.

(** Tracks ["acc"] in mode max under [ckpt], from iteration [runway] on. *)
Definition acc_config (runway : Z) : Config :=
  mkConfig "logs" 1 "epoch" (Some "ckpt") 1 (Some [("acc", "max")]) None runway
    false false.

(** The same with [checkpoint_freq = 0]. *)
Definition zero_freq_config : Config :=
  mkConfig "logs" 1 "epoch" (Some "ckpt") 0 (Some [("acc", "max")]) None 0
    false false.

(** The same with the mode ["avg"]. *)
Definition avg_mode_config : Config :=
  mkConfig "logs" 1 "epoch" (Some "ckpt") 1 (Some [("acc", "avg")]) None 0
    false false.

End Run.

(** C2, as stated, fails: with a runway of 10, a value 0.9 passed at
    iteration 1 is dropped, and after 0.5 is passed at iteration 10 the
    ledger holds 0.5, which is not the maximum of the values passed. *)
Lemma ledger_misses_values_before_runway :
  match (construct_then Float64.ltb (Run.acc_config 10)
           [Run.acc_call 1 0.9; Run.acc_call 10 0.5] Run.empty_world).1 with
  | inr self' =>
      best_metric_dict self' !! "acc" = Some 0.5%float
      ∧ checkpoint_all_metrics self' !! "acc" = Some "max"
      ∧ passed "acc" [Run.acc_call 1 0.9; Run.acc_call 10 0.5] = [0.9; 0.5]%float
      ∧ ¬ extremal Float64.ltb "max" 0.5%float
            (passed "acc" [Run.acc_call 1 0.9; Run.acc_call 10 0.5])
  | inl _ => False
  end.
Proof.
  vm_compute. split; [reflexivity|]. split; [reflexivity|]. split; [reflexivity|].
  intros [_ Hmax]. apply (Hmax 0.9%float); [set_solver|].
  left. split; reflexivity.
Qed.

(** The ledger on binary64 values with a NaN: passed first from the runway
    on, it stays, since no later value compares greater; [<] is not a total
    order on such values, and only the running best describes the entry. *)
Lemma ledger_keeps_leading_nan :
  match (construct_then Float64.ltb (Run.acc_config 10)
           [Run.acc_call 10 PrimFloat.nan; Run.acc_call 11 0.9; Run.acc_call 12 0.5]
           Run.empty_world).1 with
  | inr self' =>
      best_metric_dict self' !! "acc" = Some PrimFloat.nan
      ∧ running_best Float64.ltb "max" [PrimFloat.nan; 0.9; 0.5]%float = Some PrimFloat.nan
      ∧ ¬ strict_total Float64.ltb [PrimFloat.nan; 0.9; 0.5]%float
  | inl _ => False
  end.
Proof.
  vm_compute. split; [reflexivity|]. split; [reflexivity|].
  intros (_ & _ & Htri).
  destruct (Htri PrimFloat.nan 0.9%float) as [H|[H|H]]; [set_solver|set_solver|..];
    vm_compute in H; discriminate H.
Qed.

(** C2, amended.  After construction and any sequence of calls (which all
    return), a metric has a ledger entry exactly when it is tracked, with
    mode min or max, and some call whose iteration has reached
    [checkpoint_runway] passed a value for it.  The entry is the running
    best of the values so passed, in order: the first one, replaced by
    each later one that is strictly better under the mode.  Where [<] is a
    strict total order on these values (on binary64: no NaN beside another
    value), the entry is their maximum (mode max) or minimum (mode min):
    one of them, and strictly better than every other one.  Values passed
    below the runway play no part. *)
Theorem ledger_is_extremum_from_runway
    {V Params OptState LrState : Type} (ltb : V → V → bool)
    (cfg : Config) (w : World (@StateDict V Params OptState LrState))
    (self : @Checkpointer V) (w0 : World (@StateDict V Params OptState LrState))
    (calls : list (@Call V Params OptState LrState)) :
  init cfg w = (inr self, w0) →
  ∃ self' w',
    checkpoints ltb self calls w0 = (inr self', w')
    ∧ construct_then ltb cfg calls w = (inr self', w')
    ∧ (∀ m b, best_metric_dict self' !! m = Some b →
         ∃ mode, tracked_metrics cfg !! m = Some mode ∧ valid_mode mode
           ∧ running_best ltb mode (passed_from (cfg_checkpoint_runway cfg) m calls)
             = Some b
           ∧ (strict_total ltb (passed_from (cfg_checkpoint_runway cfg) m calls) →
              greatest ltb mode b (passed_from (cfg_checkpoint_runway cfg) m calls)))
    ∧ (∀ m, best_metric_dict self' !! m = None →
         tracked_metrics cfg !! m = None
         ∨ passed_from (cfg_checkpoint_runway cfg) m calls = []).
Proof.
  intros Hinit.
  destruct (init_run cfg w) as [[_ Hbad]|(_ & w2 & _ & _ & [[_ Hbad]|[Hvalid Hok]])];
    try (rewrite Hinit in Hbad; discriminate).
  rewrite Hinit in Hok. injection Hok as -> ->.
  set (self := mkCheckpointer _ _ _ _ _ _ _ _ _ _) in *.
  destruct (checkpoints_running_best ltb calls self w2 []) as (self' & w' & Hrun & Hledger).
  { intros m. unfold ledger_of. cbn [best_metric_dict self]. rewrite lookup_empty.
    by destruct (checkpoint_all_metrics self !! m). }
  exists self', w'. split; [done|]. split.
  { unfold construct_then. rewrite io_bind_run, Hinit. done. }
  change ([] ++ calls)%list with calls in Hledger. unfold ledger_of in Hledger.
  change (checkpoint_all_metrics self) with (tracked_metrics cfg) in Hledger.
  change (checkpoint_runway self) with (cfg_checkpoint_runway cfg) in Hledger.
  split.
  - intros m b Hb. rewrite Hledger in Hb.
    destruct (tracked_metrics cfg !! m) as [mode|] eqn:Hmode; [|done].
    exists mode. split; [done|]. split; [by eapply Hvalid|]. split; [done|].
    intros Htot. apply running_best_greatest; [by eapply Hvalid|done|done].
  - intros m Hb. rewrite Hledger in Hb.
    destruct (tracked_metrics cfg !! m) as [mode|]; [|by left].
    right. by apply running_best_None in Hb.
Qed.

Lemma ledger_is_extremum_from_runway_witness :
  ∃ self' w',
    checkpoints Float64.ltb
      (mkCheckpointer "ckpt" 1 "epoch" (Some [("acc", "max")]) {["acc" := "max"]} 10
         false false false ∅)
      [Run.acc_call 1 0.9; Run.acc_call 10 0.5; Run.acc_call 11 0.7; Run.acc_call 12 0.6]
      (mkWorld {["ckpt"]} ∅
         [Makedirs "ckpt"; LogInfo "Save checkpoints at ckpt every 1 epoch";
          LogInfo "No checkpoints saved before 10 epoch."])
    = (inr self', w')
    ∧ construct_then Float64.ltb (Run.acc_config 10)
        [Run.acc_call 1 0.9; Run.acc_call 10 0.5; Run.acc_call 11 0.7; Run.acc_call 12 0.6]
        Run.empty_world
      = (inr self', w')
    ∧ (∀ m b, best_metric_dict self' !! m = Some b →
         ∃ mode, tracked_metrics (Run.acc_config 10) !! m = Some mode ∧ valid_mode mode
           ∧ running_best Float64.ltb mode
               (passed_from (cfg_checkpoint_runway (Run.acc_config 10)) m
                  [Run.acc_call 1 0.9; Run.acc_call 10 0.5; Run.acc_call 11 0.7;
                   Run.acc_call 12 0.6])
             = Some b
           ∧ (strict_total Float64.ltb
                (passed_from (cfg_checkpoint_runway (Run.acc_config 10)) m
                   [Run.acc_call 1 0.9; Run.acc_call 10 0.5; Run.acc_call 11 0.7;
                    Run.acc_call 12 0.6]) →
              greatest Float64.ltb mode b
                (passed_from (cfg_checkpoint_runway (Run.acc_config 10)) m
                   [Run.acc_call 1 0.9; Run.acc_call 10 0.5; Run.acc_call 11 0.7;
                    Run.acc_call 12 0.6])))
    ∧ (∀ m, best_metric_dict self' !! m = None →
         tracked_metrics (Run.acc_config 10) !! m = None
         ∨ passed_from (cfg_checkpoint_runway (Run.acc_config 10)) m
             [Run.acc_call 1 0.9; Run.acc_call 10 0.5; Run.acc_call 11 0.7;
              Run.acc_call 12 0.6] = []).
Proof.
  apply (ledger_is_extremum_from_runway Float64.ltb
           (Run.acc_config 10) Run.empty_world).
  vm_compute. reflexivity.
Defined.

(** The run of the witness: the values from the runway on are 0.5, 0.7 and
    0.6, totally ordered, and the ledger holds their maximum 0.7; the 0.9
    passed at iteration 1 is not among them. *)
Lemma ledger_of_acc_run :
  passed_from 10 "acc"
    [Run.acc_call 1 0.9; Run.acc_call 10 0.5; Run.acc_call 11 0.7; Run.acc_call 12 0.6]
  = [0.5; 0.7; 0.6]%float
  ∧ strict_total Float64.ltb [0.5; 0.7; 0.6]%float
  ∧ running_best Float64.ltb "max" [0.5; 0.7; 0.6]%float = Some 0.7%float
  ∧ greatest Float64.ltb "max" 0.7%float [0.5; 0.7; 0.6]%float.
Proof.
  assert (Htot : strict_total Float64.ltb [0.5; 0.7; 0.6]%float).
  { split; [|split].
    - intros x _. apply Float64.ltb_irrefl.
    - intros x y z _ _ _. apply Float64.ltb_trans.
    - intros x y Hx Hy.
      repeat (apply elem_of_cons in Hx as [->|Hx]); [| | |by apply elem_of_nil in Hx];
        repeat (apply elem_of_cons in Hy as [->|Hy]);
        try (by apply elem_of_nil in Hy);
        first [by left | right; left; reflexivity | right; right; reflexivity]. }
  split; [reflexivity|]. split; [exact Htot|]. split; [reflexivity|].
  apply running_best_greatest; [by right|exact Htot|reflexivity].
Qed.

Lemma is_new_best_returns_exactly_the_new_bests_witness :
  (0 ≤ 5)%Z
  ∧ (∃ self' w',
       checkpoint Float64.ltb Float64.acc_max 5 (mkModel "m" tt) tt (@None unit)
         {["acc" := 0.9%float]} Run.empty_world
       = (inr self', w')
       ∧ best_metric_dict self'
         = best_metric_dict (is_new_best Float64.ltb Float64.acc_max {["acc" := 0.9%float]}).1)
  ∧ "acc" ∉ (is_new_best Float64.ltb
               (set_best_metric_dict {["acc" := 0.9%float]} Float64.acc_max)
               {["acc" := 0.9%float]}).2.
Proof.
  split; [lia|]. split.
  - apply (proj1 is_new_best_returns_exactly_the_new_bests
             float unit unit unit Float64.ltb Float64.acc_max {["acc" := 0.9%float]}).
    vm_compute. discriminate.
  - apply (proj1 is_new_best_returns_exactly_the_new_bests
             float unit unit unit Float64.ltb
             (set_best_metric_dict {["acc" := 0.9%float]} Float64.acc_max)
             {["acc" := 0.9%float]})
      with (v := 0.9%float); reflexivity.
Defined.

(** C4, as stated, fails: with [checkpoint_freq = 0], and with the mode
    ["avg"], the constructor raises [ValueError], but only after it has
    created the checkpoint directory. *)
Lemma init_makes_directory_before_it_validates :
  ("ckpt" ∉ dirs Run.empty_world)
  ∧ init Run.zero_freq_config Run.empty_world
    = (inl ValueError, mkWorld {["ckpt"]} ∅ [Makedirs "ckpt"])
  ∧ init Run.avg_mode_config Run.empty_world
    = (inl ValueError,
       mkWorld {["ckpt"]} ∅
         [Makedirs "ckpt"; LogInfo "Save checkpoints at ckpt every 1 epoch"]).
Proof. split; [set_solver|]. split; vm_compute; reflexivity. Qed.

(** C4, amended.  Constructing the checkpointer with an effective
    [checkpoint_freq <= 0], or with a tracked metric whose mode is neither
    ["min"] nor ["max"], raises [ValueError]; when it is raised the
    checkpoint directory has already been set up (made, if the path did not
    exist), and no file has been touched. *)
Theorem init_rejects_invalid_config
    {V Params OptState LrState : Type} (cfg : Config)
    (w : World (@StateDict V Params OptState LrState)) :
  invalid_config cfg →
  ∃ w',
    init cfg w = (inl ValueError, w')
    ∧ dirs w' = dirs (with_directory (configured_path cfg) w)
    ∧ files w' = files w
    ∧ (configured_path cfg ∈ dirs w' ∨ is_Some (files w !! configured_path cfg)).
Proof.
  intros Hbad.
  assert (Hfiles : files (with_directory (configured_path cfg) w) = files w).
  { unfold with_directory. by destruct (_ || _). }
  assert (Hthere : configured_path cfg ∈ dirs (with_directory (configured_path cfg) w)
                   ∨ is_Some (files w !! configured_path cfg)).
  { unfold with_directory.
    destruct (bool_decide (configured_path cfg ∈ dirs w)) eqn:Hd; cbn [orb].
    - left. by apply bool_decide_eq_true in Hd.
    - destruct (bool_decide (is_Some (files w !! configured_path cfg))) eqn:Hf.
      + right. by apply bool_decide_eq_true in Hf.
      + left. cbn [dirs]. set_solver. }
  destruct (init_run cfg w)
    as [[_ Hrun]|(Hpos & w2 & Hd & Hf & [[_ Hrun]|[Hvalid _]])].
  - eauto.
  - exists w2. rewrite Hd, Hf. eauto.
  - exfalso. destruct Hbad as [Hle|(metric & mode & Hmode & Hinvalid)]; [lia|].
    eauto.
Qed.

Lemma init_rejects_invalid_config_witness :
  ∃ w',
    init Run.avg_mode_config Run.empty_world = (inl ValueError, w')
    ∧ dirs w' = dirs (with_directory (configured_path Run.avg_mode_config) Run.empty_world)
    ∧ files w' = files Run.empty_world
    ∧ (configured_path Run.avg_mode_config ∈ dirs w'
       ∨ is_Some (files Run.empty_world !! configured_path Run.avg_mode_config)).
Proof.
  apply (init_rejects_invalid_config (V := float) Run.avg_mode_config Run.empty_world).
  right. exists "acc", "avg". split; [reflexivity|].
  intros [H|H]; discriminate H.
Defined.

(** ** Snapshots and best-model copies *)

Section Snapshots.

Context {V Params OptState LrState : Type}.
Variable ltb : V → V → bool.

Abbreviation snapshot_world := (World (@StateDict V Params OptState LrState)).

(** Below the runway a call returns [self] and the world as they were. *)
Lemma checkpoint_below_runway (self : @Checkpointer V) iteration (model : @Model Params)
    (optimizer : OptState) (lr_scheduler : option LrState) md (w : snapshot_world) :
  iteration < checkpoint_runway self →
  checkpoint ltb self iteration model optimizer lr_scheduler md w = (inr self, w).
Proof.
  intros Hlt. unfold checkpoint. rewrite (proj2 (Z.ltb_lt _ _)) by done. reflexivity.
Qed.

(** [checkpoint_freq] plays no part in what a call past the runway does. *)
Lemma checkpoint_outcome_freq (self : @Checkpointer V) f iteration (model : @Model Params)
    (optimizer : OptState) (lr_scheduler : option LrState) md (w : snapshot_world) :
  checkpoint_outcome ltb (set_checkpoint_freq f self) iteration model optimizer
    lr_scheduler md w
  = (set_checkpoint_freq f
       (checkpoint_outcome ltb self iteration model optimizer lr_scheduler md w).1,
     (checkpoint_outcome ltb self iteration model optimizer lr_scheduler md w).2).
Proof.
  unfold checkpoint_outcome. cbn [fst snd].
  assert (Hnb : is_new_best ltb (set_checkpoint_condition_met true (set_checkpoint_freq f self)) md
                = (set_checkpoint_freq f
                     (is_new_best ltb (set_checkpoint_condition_met true self) md).1,
                   (is_new_best ltb (set_checkpoint_condition_met true self) md).2)).
  { unfold is_new_best.
    change (is_new_best_loop ltb
              (set_checkpoint_condition_met true (set_checkpoint_freq f self)) md)
      with (is_new_best_loop ltb (set_checkpoint_condition_met true self) md).
    by destruct (is_new_best_loop ltb _ md _). }
  rewrite Hnb. reflexivity.
Qed.

(** Past the runway: the snapshot is written, each new best gets a copy of
    it, and every other file is left alone. *)
Lemma checkpoint_files (self : @Checkpointer V) iteration (model : @Model Params)
    (optimizer : OptState) (lr_scheduler : option LrState) md (w : snapshot_world) :
  checkpoint_runway self ≤ iteration →
  let sd := collect_state_dict iteration model optimizer lr_scheduler md in
  ∃ self' w',
    checkpoint ltb self iteration model optimizer lr_scheduler md w = (inr self', w')
    ∧ dirs w' = dirs w
    ∧ files w' !! checkpoint_file self iteration = Some sd
    ∧ (∀ m, m ∈ (is_new_best ltb self md).2 →
         files w' !! best_model_file self m = Some sd)
    ∧ (∀ p, p ≠ checkpoint_file self iteration →
         (∀ m, m ∈ (is_new_best ltb self md).2 → p ≠ best_model_file self m) →
         files w' !! p = files w !! p)
    ∧ (∃ events,
         trace w' = trace w ++ events
         ∧ TorchSave (checkpoint_file self iteration) ∈ events).
Proof.
  intros Hrun sd. eexists _, _. split; [by apply checkpoint_past_runway|].
  unfold checkpoint_outcome. cbn [fst snd dirs files trace].
  rewrite is_new_best_condition_met. cbn [fst snd]. fold sd.
  split; [done|]. split; [|split; [|split]].
  - rewrite copy_files_lookup_out; [by rewrite lookup_insert_eq|].
    intros m _. by apply checkpoint_file_ne_best_model_file.
  - intros m Hm. apply copy_files_lookup_in. by apply elem_of_elements.
  - intros p Hp Hbest. rewrite copy_files_lookup_out.
    + by rewrite lookup_insert_ne.
    + intros m Hm%elem_of_elements. by apply Hbest.
  - destruct (checkpoint_condition_met self).
    + eexists. split; [reflexivity|]. set_solver.
    + unfold emit. cbn [trace]. rewrite <- app_assoc. eexists. split; [reflexivity|].
      set_solver.
Qed.

End Snapshots.

(** C7.  A call with [iteration < checkpoint_runway] returns at once: the
    world (files, directories, trace) and [self] (ledger, transition flag,
    everything else) are exactly as before.  So any run of such calls after
    construction leaves the flag false and the ledger empty. *)
Theorem checkpoint_below_runway_changes_nothing
    {V Params OptState LrState : Type} (ltb : V → V → bool)
    (self : @Checkpointer V) (w : World (@StateDict V Params OptState LrState)) :
  (∀ iteration model optimizer lr_scheduler metric_dict,
     iteration < checkpoint_runway self →
     checkpoint ltb self iteration model optimizer lr_scheduler metric_dict w
     = (inr self, w))
  ∧ (∀ calls,
       Forall (λ c, call_iteration c < checkpoint_runway self) calls →
       checkpoints ltb self calls w = (inr self, w))
  ∧ (∀ cfg w0 calls,
       init cfg w0 = (inr self, w) →
       Forall (λ c, call_iteration c < checkpoint_runway self) calls →
       ∃ self',
         checkpoints ltb self calls w = (inr self', w)
         ∧ checkpoint_condition_met self' = false
         ∧ best_metric_dict self' = ∅).
Proof.
  assert (Hcalls : ∀ calls,
            Forall (λ c, call_iteration c < checkpoint_runway self) calls →
            checkpoints ltb self calls w = (inr self, w)).
  { induction 1 as [|c calls Hc _ IH]; [reflexivity|].
    cbn [checkpoints]. rewrite io_bind_run.
    by rewrite checkpoint_below_runway. }
  split; [|split].
  - intros. by apply checkpoint_below_runway.
  - exact Hcalls.
  - intros cfg w0 calls Hinit Hbelow. exists self. split; [by apply Hcalls|].
    destruct (init_run cfg w0) as [[_ Hbad]|(_ & w2 & _ & _ & [[_ Hbad]|[_ Hok]])];
      try (rewrite Hinit in Hbad; discriminate).
    rewrite Hinit in Hok. by injection Hok as -> _.
Qed.

Lemma checkpoint_below_runway_changes_nothing_witness :
  checkpoint Float64.ltb
    (mkCheckpointer "ckpt" 1 "epoch" (Some [("acc", "max")]) {["acc" := "max"]} 10
       false false false ∅)
    3 (mkModel "m" tt) tt (@None unit) {["acc" := 0.9%float]} Run.empty_world
  = (inr (mkCheckpointer "ckpt" 1 "epoch" (Some [("acc", "max")]) {["acc" := "max"]} 10
            false false false ∅),
     Run.empty_world).
Proof.
  apply (proj1 (checkpoint_below_runway_changes_nothing Float64.ltb _ Run.empty_world)).
  reflexivity.
Defined.

(** C8.  When a call past the runway sets a new best for the tracked metric
    [m], the file [best_model_<m with / replaced by _>.pth] of
    [checkpoint_path] exists afterwards and holds what
    [checkpoint_<iteration>.pth] holds, namely the snapshot just written,
    whatever the file held before.  After
    [checkpoint(5, ..., {"acc": 0.9})] in mode max, [best_model_acc.pth]
    exists and equals [checkpoint_5.pth]. *)
Theorem new_best_gets_copy_of_snapshot :
  (∀ (V Params OptState LrState : Type) (ltb : V → V → bool)
     (self : @Checkpointer V) iteration (model : @Model Params) (optimizer : OptState)
     (lr_scheduler : option LrState) metric_dict
     (w : World (@StateDict V Params OptState LrState)) m,
     checkpoint_runway self ≤ iteration →
     new_best ltb (checkpoint_all_metrics self) (best_metric_dict self) metric_dict m →
     ∃ self' w',
       checkpoint ltb self iteration model optimizer lr_scheduler metric_dict w
       = (inr self', w')
       ∧ files w' !! (checkpoint_path self +:+ "/best_model_" +:+ replace_slash m +:+ ".pth")
         = Some (collect_state_dict iteration model optimizer lr_scheduler metric_dict)
       ∧ files w' !! (checkpoint_path self +:+ "/checkpoint_" +:+ str_int iteration +:+ ".pth")
         = Some (collect_state_dict iteration model optimizer lr_scheduler metric_dict))
  ∧ (∃ snapshot,
       files (checkpoint Float64.ltb Float64.acc_max 5 (mkModel "m" tt) tt (@None unit)
                {["acc" := 0.9%float]} Run.empty_world).2 !! "ckpt/best_model_acc.pth"
       = Some snapshot
       ∧ files (checkpoint Float64.ltb Float64.acc_max 5 (mkModel "m" tt) tt (@None unit)
                  {["acc" := 0.9%float]} Run.empty_world).2 !! "ckpt/checkpoint_5.pth"
         = Some snapshot).
Proof.
  split.
  - intros V Params OptState LrState ltb self iteration model optimizer lr_scheduler
      md w m Hrun Hnew.
    destruct (checkpoint_files ltb self iteration model optimizer lr_scheduler md w Hrun)
      as (self' & w' & Hck & _ & Hsnap & Hbest & _).
    exists self', w'. split; [done|]. split; [|exact Hsnap].
    apply Hbest. by apply (is_new_best_spec ltb self md).
  - vm_compute. eexists. split; reflexivity.
Qed.

Lemma new_best_gets_copy_of_snapshot_witness :
  ∃ self' w',
    checkpoint Float64.ltb Float64.acc_max 5 (mkModel "m" tt) tt (@None unit)
      {["a/b" := 0.9%float; "acc" := 0.9%float]}
      (mkWorld {["ckpt"]} {["ckpt/best_model_acc.pth" :=
         collect_state_dict 1 (mkModel "old" tt) tt None {["acc" := 0.1%float]}]} [])
    = (inr self', w')
    ∧ files w' !! (checkpoint_path Float64.acc_max +:+ "/best_model_"
                   +:+ replace_slash "acc" +:+ ".pth")
      = Some (collect_state_dict 5 (mkModel "m" tt) tt None
                {["a/b" := 0.9%float; "acc" := 0.9%float]})
    ∧ files w' !! (checkpoint_path Float64.acc_max +:+ "/checkpoint_" +:+ str_int 5
                   +:+ ".pth")
      = Some (collect_state_dict 5 (mkModel "m" tt) tt None
                {["a/b" := 0.9%float; "acc" := 0.9%float]}).
Proof.
  apply (proj1 new_best_gets_copy_of_snapshot float unit unit unit Float64.ltb).
  - vm_compute. discriminate.
  - exists 0.9%float, "max". split; [reflexivity|]. split; [reflexivity|]. by left.
Defined.

(** C9.  Every call with [iteration >= checkpoint_runway] writes the
    snapshot [checkpoint_<iteration>.pth], whatever [metric_dict] is (empty,
    or disjoint from the tracked metrics), and whatever [checkpoint_freq]
    is: changing [checkpoint_freq] changes nothing in what the call does. *)
Theorem checkpoint_past_runway_always_writes
    {V Params OptState LrState : Type} (ltb : V → V → bool)
    (self : @Checkpointer V) iteration (model : @Model Params) (optimizer : OptState)
    (lr_scheduler : option LrState) metric_dict
    (w : World (@StateDict V Params OptState LrState)) :
  checkpoint_runway self ≤ iteration →
  ∃ self' w',
    checkpoint ltb self iteration model optimizer lr_scheduler metric_dict w
    = (inr self', w')
    ∧ files w' !! checkpoint_file self iteration
      = Some (collect_state_dict iteration model optimizer lr_scheduler metric_dict)
    ∧ (∃ events, trace w' = trace w ++ events
                 ∧ TorchSave (checkpoint_file self iteration) ∈ events)
    ∧ ∀ f,
        checkpoint ltb (set_checkpoint_freq f self) iteration model optimizer
          lr_scheduler metric_dict w
        = (inr (set_checkpoint_freq f self'), w').
Proof.
  intros Hrun.
  destruct (checkpoint_files ltb self iteration model optimizer lr_scheduler metric_dict
              w Hrun) as (self' & w' & Hck & _ & Hsnap & _ & _ & Htrace).
  exists self', w'. split; [done|]. split; [done|]. split; [done|].
  intros f. rewrite checkpoint_past_runway by done.
  rewrite checkpoint_outcome_freq.
  rewrite checkpoint_past_runway in Hck by done. by injection Hck as <- <-.
Qed.

Lemma checkpoint_past_runway_always_writes_witness :
  ∃ self' w',
    checkpoint Float64.ltb (set_checkpoint_freq 5 Float64.acc_max) 7 (mkModel "m" tt) tt
      (@None unit) ∅ Run.empty_world
    = (inr self', w')
    ∧ files w' !! checkpoint_file (set_checkpoint_freq 5 Float64.acc_max) 7
      = Some (collect_state_dict 7 (mkModel "m" tt) tt None ∅)
    ∧ (∃ events, trace w' = trace Run.empty_world ++ events
                 ∧ TorchSave (checkpoint_file (set_checkpoint_freq 5 Float64.acc_max) 7)
                   ∈ events)
    ∧ ∀ f,
        checkpoint Float64.ltb (set_checkpoint_freq f (set_checkpoint_freq 5 Float64.acc_max))
          7 (mkModel "m" tt) tt (@None unit) ∅ Run.empty_world
        = (inr (set_checkpoint_freq f self'), w').
Proof.
  apply (checkpoint_past_runway_always_writes Float64.ltb).
  vm_compute. discriminate.
Defined.

(** ** Restoring the best model *)

(** C6.  When the first key of [checkpoint_metric] has no ledger entry,
    [load_best_model(model)] returns [model] itself, name and parameters
    untouched; it reads no file: the only effect is the log line. *)
Theorem load_best_model_without_entry_returns_model
    {V Params OptState LrState : Type} (self : @Checkpointer V) (model : @Model Params)
    (w : World (@StateDict V Params OptState LrState)) metric mode rest :
  checkpoint_metric self = Some ((metric, mode) :: rest) →
  best_metric_dict self !! metric = None →
  load_best_model self model w
  = (inr model,
     mkWorld (dirs w) (files w)
       (trace w ++ [LogInfo "No best model found, use the original model."])).
Proof.
  intros Hcm Hnone. unfold load_best_model. rewrite Hcm. cbn [fmap list_fmap fst].
  rewrite bool_decide_eq_true_2 by (by apply not_elem_of_dom).
  reflexivity.
Qed.

(** A checkpointer that has a best for ["loss"] but none for ["acc"], the
    first key of its [checkpoint_metric]; and a world with that best copy. *)
Definition loss_only : @Checkpointer float :=
  mkCheckpointer "ckpt" 1 "epoch" (Some [("acc", "max"); ("loss", "min")])
    {["acc" := "max"; "loss" := "min"]} 0 false false true {["loss" := 0.25%float]}.

Definition loss_only_world : World (@StateDict float nat unit unit) :=
  mkWorld {["ckpt"]}
    {["ckpt/best_model_loss.pth" :=
        collect_state_dict 3 (mkModel "other" 9%nat) tt None {["loss" := 0.25%float]}]}
    [].

Lemma load_best_model_without_entry_returns_model_witness :
  load_best_model loss_only (mkModel "m" 7%nat) loss_only_world
  = (inr (mkModel "m" 7%nat),
     mkWorld (dirs loss_only_world) (files loss_only_world)
       (trace loss_only_world ++ [LogInfo "No best model found, use the original model."])).
Proof.
  apply (load_best_model_without_entry_returns_model loss_only (mkModel "m" 7%nat)
           loss_only_world "acc" "max" [("loss", "min")]); reflexivity.
Defined.

(** C10.  With [checkpoint_metric] unset ([None]) or empty, every call of
    [load_best_model] raises: [AttributeError] on [None.keys()], [IndexError]
    on the first element of an empty key list.  The ledger is not consulted,
    the model is not returned and the world is left as it was. *)
Theorem load_best_model_without_checkpoint_metric_raises
    {V Params OptState LrState : Type} (self : @Checkpointer V) (model : @Model Params)
    (w : World (@StateDict V Params OptState LrState)) :
  (checkpoint_metric self = None →
   load_best_model self model w = (inl AttributeError, w))
  ∧ (checkpoint_metric self = Some [] →
     load_best_model self model w = (inl IndexError, w)).
Proof.
  unfold load_best_model. split; intros ->; reflexivity.
Qed.

(** The same checkpointer with an empty [checkpoint_metric]. *)
Definition no_checkpoint_metric : @Checkpointer float :=
  mkCheckpointer "ckpt" 1 "epoch" (Some []) {["loss" := "min"]} 0 false false true
    {["loss" := 0.25%float]}.

Lemma load_best_model_without_checkpoint_metric_raises_witness :
  load_best_model no_checkpoint_metric (mkModel "m" 7%nat) loss_only_world
  = (inl IndexError, loss_only_world).
Proof.
  apply (proj2 (load_best_model_without_checkpoint_metric_raises no_checkpoint_metric
                  (mkModel "m" 7%nat) loss_only_world)).
  reflexivity.
Defined.

(** ** Clearing checkpoints *)

Section Strings.

Lemma occurs_app c a b : occurs c (a +:+ b) = occurs c a || occurs c b.
Proof.
  induction a as [|d a IH]; simpl; [done|].
  by rewrite IH, orb_assoc.
Qed.

Lemma occurs_replace_slash s : occurs "/" (replace_slash s) = false.
Proof.
  induction s as [|c s IH]; cbn [replace_slash occurs]; [done|].
  rewrite IH, orb_false_r.
  destruct (Ascii.eqb_spec c "/") as [->|Hne]; [done|].
  apply Ascii.eqb_neq. congruence.
Qed.



Lemma strip_prefix_app a b c : strip_prefix (a +:+ b) (a +:+ c) = strip_prefix b c.
Proof.
  induction a as [|d a IH]; simpl; [done|].
  by rewrite Ascii.eqb_refl.
Qed.

(** A path of the directory [dir], by its name. *)
Lemma entry_name_in_dir dir name :
  occurs "/" name = false → entry_name dir (dir +:+ String "/" name) = Some name.
Proof.
  intros Hname. unfold entry_name. rewrite strip_prefix_app. simpl. by rewrite Hname.
Qed.

(** A character other than [*], [?] and [[] stands for itself. *)
Lemma has_magic_cons c s :
  has_magic (String c s) = false ↔
  Ascii.eqb c "*" = false ∧ Ascii.eqb c "?" = false ∧ Ascii.eqb c "[" = false
  ∧ has_magic s = false.
Proof.
  unfold has_magic. cbn [occurs].
  rewrite (Ascii.eqb_sym "*" c), (Ascii.eqb_sym "?" c), (Ascii.eqb_sym "[" c).
  destruct (Ascii.eqb c "*"), (Ascii.eqb c "?"), (Ascii.eqb c "["),
    (occurs "*" s), (occurs "?" s), (occurs "[" s); cbn [orb]; intuition congruence.
Qed.

Lemma translate_literal c pat :
  Ascii.eqb c "*" = false → Ascii.eqb c "?" = false → Ascii.eqb c "[" = false →
  translate 0 (String c pat) = Lit c :: translate 0 pat.
Proof. intros H1 H2 H3. cbn [translate]. by rewrite H1, H2, H3. Qed.

(** How [*] matches: nothing here, or one character and [*] again. *)
Lemma fnmatch_star_unfold pat name :
  fnmatch (String "*" pat) name
  = fnmatch pat name
    || match name with
       | EmptyString => false
       | String _ name' => fnmatch (String "*" pat) name'
       end.
Proof. destruct name; reflexivity. Qed.

(** [*] followed by [pat] matches whatever ends in a match of [pat]. *)
Lemma fnmatch_star pat pre s :
  fnmatch pat s = true → fnmatch (String "*" pat) (pre +:+ s) = true.
Proof.
  intros Hs. induction pre as [|c pre IH]; rewrite fnmatch_star_unfold.
  - change ("" +:+ s) with s. by rewrite Hs.
  - change (String c pre +:+ s) with (String c (pre +:+ s)). cbv beta iota.
    rewrite IH. apply orb_true_r.
Qed.

Lemma fnmatch_star_app pat pre x :
  fnmatch (String "*" pat) x = true → fnmatch (String "*" pat) (pre +:+ x) = true.
Proof.
  intros Hx. induction pre as [|c pre IH]; [done|].
  change (String c pre +:+ x) with (String c (pre +:+ x)).
  rewrite fnmatch_star_unfold, IH. apply orb_true_r.
Qed.


Lemma string_app_assoc a b c : (a +:+ b) +:+ c = a +:+ (b +:+ c).
Proof.
  induction a as [|d a IH]; [done|].
  change (String d ((a +:+ b) +:+ c) = String d (a +:+ (b +:+ c))). by f_equal.
Qed.

Lemma strip_prefix_Some pre s r : strip_prefix pre s = Some r → s = pre +:+ r.
Proof.
  revert s. induction pre as [|c pre IH]; intros s; cbn [strip_prefix].
  - by intros [= ->].
  - destruct s as [|d s]; [done|].
    destruct (Ascii.eqb_spec c d) as [->|?]; [|done].
    intros H. change (String d pre +:+ r) with (String d (pre +:+ r)).
    f_equal. by apply IH.
Qed.

Lemma entry_name_Some dir path name :
  entry_name dir path = Some name →
  path = dir +:+ "/" +:+ name ∧ occurs "/" name = false.
Proof.
  unfold entry_name. destruct (strip_prefix (dir +:+ "/") path) as [r|] eqn:Hr; [|done].
  destruct (occurs "/" r) eqn:Ho; [done|]. intros [= <-].
  apply strip_prefix_Some in Hr. by rewrite string_app_assoc in Hr.
Qed.

(** [split_path] and [components] on a path put together from a directory
    and a name. *)
Lemma split_path_nonempty s : split_path s ≠ [].
Proof.
  destruct s as [|c s]; [done|]. cbn [split_path].
  destruct (Ascii.eqb c "/"); [done|]. by destruct (split_path s).
Qed.

Lemma split_path_name name : occurs "/" name = false → split_path name = [name].
Proof.
  induction name as [|c name IH]; [done|].
  cbn [occurs split_path]. intros [Hc Hname]%orb_false_elim.
  rewrite Ascii.eqb_sym, Hc. by rewrite IH.
Qed.

Lemma split_path_app dir name :
  split_path (dir +:+ String "/" name) = split_path dir ++ split_path name.
Proof.
  induction dir as [|c dir IH]; [done|].
  change (String c dir +:+ String "/" name) with (String c (dir +:+ String "/" name)).
  cbn [split_path]. rewrite IH. destruct (Ascii.eqb c "/"); [done|].
  pose proof (split_path_nonempty dir). by destruct (split_path dir).
Qed.

Lemma components_entry dir name :
  occurs "/" name = false → name ≠ "" →
  components (dir +:+ String "/" name) = components dir ++ [name].
Proof.
  intros Hslash Hname. unfold components.
  rewrite split_path_app, (split_path_name name) by done.
  pose proof (split_path_nonempty dir). destruct (split_path dir) as [|first names]; [done|].
  cbn [app]. rewrite filter_app. do 2 f_equal.
  cbn [filter list_filter]. destruct (String.eqb_spec name ""); done.
Qed.

(** The last component decides against a match. *)
Lemma components_match_last pats pat names name :
  component_match pat name = false →
  components_match (pats ++ [pat]) (names ++ [name]) = false.
Proof.
  intros Hlast. revert names. induction pats as [|p pats IH]; intros [|n names].
  - cbn [app components_match]. by rewrite Hlast.
  - cbn [app components_match]. destruct names; cbn [app]; apply andb_false_r.
  - cbn [app components_match]. destruct pats; cbn [app components_match]; apply andb_false_r.
  - cbn [app components_match]. rewrite IH. apply andb_false_r.
Qed.

End Strings.

Section Clear.

Context {V Params OptState LrState : Type}.

Abbreviation clear_world := (World (@StateDict V Params OptState LrState)).


Lemma best_model_file_entry (self : @Checkpointer V) metric :
  entry_name (checkpoint_path self) (best_model_file self metric)
  = Some ("best_model_" +:+ replace_slash metric +:+ ".pth").
Proof.
  unfold best_model_file.
  change ("/best_model_" +:+ replace_slash metric +:+ ".pth")
    with (String "/" ("best_model_" +:+ replace_slash metric +:+ ".pth")).
  apply entry_name_in_dir. rewrite !occurs_app, occurs_replace_slash. reflexivity.
Qed.

(** With no wildcard in [dir], [glob] lists entries of [dir]. *)
Lemma glob_match_literal dir pat path :
  has_magic dir = false →
  glob_match dir pat path
  = match entry_name dir path with
    | Some name => component_match pat name
    | None => false
    end.
Proof. intros Hdir. unfold glob_match. by rewrite Hdir. Qed.

Lemma component_match_all name :
  component_match "*.pth" name = negb (ishidden name) && fnmatch "*.pth" name.
Proof. reflexivity. Qed.

Lemma component_match_intermediate name :
  component_match "checkpoint_*.pth" name
  = negb (ishidden name) && fnmatch "checkpoint_*.pth" name.
Proof. reflexivity. Qed.


Lemma glob_all_best_model_file (self : @Checkpointer V) metric :
  has_magic (checkpoint_path self) = false →
  glob_match (checkpoint_path self) "*.pth" (best_model_file self metric) = true.
Proof.
  intros Hdir. rewrite glob_match_literal, best_model_file_entry by done.
  rewrite component_match_all.
  change (ishidden ("best_model_" +:+ replace_slash metric +:+ ".pth")) with false.
  cbn [negb andb].
  apply fnmatch_star_app. by apply (fnmatch_star ".pth").
Qed.


(** A best-model file is never listed by [checkpoint_*.pth], whatever
    [checkpoint_path] is and expands to: its name starts otherwise. *)
Lemma glob_intermediate_best_model_file (self : @Checkpointer V) metric :
  glob_match (checkpoint_path self) "checkpoint_*.pth" (best_model_file self metric)
  = false.
Proof.
  unfold glob_match. destruct (has_magic (checkpoint_path self)).
  - unfold best_model_file.
    change (checkpoint_path self +:+ "/" +:+ "checkpoint_*.pth")
      with (checkpoint_path self +:+ String "/" "checkpoint_*.pth").
    change ("/best_model_" +:+ replace_slash metric +:+ ".pth")
      with (String "/" ("best_model_" +:+ replace_slash metric +:+ ".pth")).
    rewrite !components_entry; [|by rewrite !occurs_app, occurs_replace_slash|done..].
    by apply components_match_last.
  - rewrite best_model_file_entry. reflexivity.
Qed.

(** Removing distinct, existing files one after the other. *)
Definition remove_files (paths : list string) (fs : gmap string (@StateDict V Params OptState LrState))
  : gmap string (@StateDict V Params OptState LrState) :=
  foldl (λ acc p, delete p acc) fs paths.

Lemma remove_files_lookup paths fs p :
  remove_files paths fs !! p = if decide (p ∈ paths) then None else fs !! p.
Proof.
  unfold remove_files. revert fs. induction paths as [|q paths IH]; intros fs.
  - cbn [foldl]. by rewrite decide_False by set_solver.
  - cbn [foldl]. rewrite IH. destruct (decide (p = q)) as [->|Hne].
    + rewrite lookup_delete_eq, (decide_True (P := q ∈ q :: paths)) by set_solver.
      by case_decide.
    + rewrite lookup_delete_ne by done.
      destruct (decide (p ∈ paths)), (decide (p ∈ q :: paths));
        try done; exfalso; set_solver.
Qed.

Lemma for_each_remove paths :
  NoDup paths →
  ∀ w : clear_world,
    (∀ p, p ∈ paths → is_Some (files w !! p)) →
    for_each paths remove w
    = (inr tt, mkWorld (dirs w) (remove_files paths (files w))
                 (trace w ++ (Remove <$> paths))).
Proof.
  induction 1 as [|q paths Hq Hnd IH]; intros w Hex.
  - cbn [for_each fmap list_fmap remove_files foldl]. rewrite io_ret_run, app_nil_r.
    by destruct w.
  - cbn [for_each]. rewrite io_bind_run. unfold remove at 1.
    destruct (Hex q) as [c Hc]; [set_solver|]. rewrite Hc.
    rewrite IH.
    + unfold emit. cbn [dirs files trace fmap list_fmap remove_files foldl].
      by rewrite <- app_assoc.
    + intros p Hp. unfold emit. cbn [files].
      rewrite lookup_delete_ne by (intros ->; done). apply Hex. set_solver.
Qed.

(** [glob] followed by the removal of what it lists: the files of the
    directory that match are gone, every other file is as it was. *)
Lemma glob_remove (dir pat : string) (w : clear_world) :
  ∃ w',
    (glob dir pat ≫= λ file_list, for_each file_list remove) w = (inr tt, w')
    ∧ dirs w' = dirs w
    ∧ (∀ p, files w' !! p = if glob_match dir pat p then None else files w !! p)
    ∧ (∃ removed, trace w' = trace w ++ (Remove <$> removed)
                  ∧ ∀ p, p ∈ removed ↔ glob_match dir pat p = true ∧ is_Some (files w !! p)).
Proof.
  rewrite io_bind_run. unfold glob.
  set (l := filter (λ p, glob_match dir pat p = true) (map_to_list (files w)).*1).
  assert (Hl : ∀ p, p ∈ l ↔ glob_match dir pat p = true ∧ is_Some (files w !! p)).
  { intros p. subst l. rewrite list_elem_of_filter, list_elem_of_fmap.
    split.
    - intros [Hm ([k c] & -> & Hin%elem_of_map_to_list)]. eauto.
    - intros [Hm [c Hc]]. split; [done|]. exists (p, c). split; [done|].
      by apply elem_of_map_to_list. }
  rewrite for_each_remove.
  - eexists. split; [reflexivity|]. cbn [dirs files trace]. split; [done|]. split.
    + intros p. rewrite remove_files_lookup. case_decide as Hin.
      * apply Hl in Hin as [-> _]. done.
      * destruct (glob_match dir pat p) eqn:Hm; [|done].
        destruct (files w !! p) eqn:Hp; [|done]. exfalso. apply Hin, Hl. eauto.
    + exists l. done.
  - apply NoDup_filter, NoDup_fst_map_to_list.
  - intros p Hp. by apply Hl in Hp as [_ ?].
Qed.

End Clear.

(** No directory of [w] is named like a [.pth] entry of [checkpoint_path]:
    [glob] would list it, and [os.remove] fail on it. *)
Definition no_directory_listed {V Params OptState LrState : Type}
    (self : @Checkpointer V) (w : World (@StateDict V Params OptState LrState)) : Prop :=
  ∀ d, is_directory w d → glob_match (checkpoint_path self) "*.pth" d = false.





(** A world with two per-iteration snapshots, a best-model copy and a file
    that is not a snapshot. *)
Definition some_snapshots : World (@StateDict float unit unit unit) :=
  mkWorld {["ckpt"]}
    {["ckpt/checkpoint_4.pth" :=
        collect_state_dict 4 (mkModel "m" tt) tt None {["a/b" := 0.5%float]};
      "ckpt/checkpoint_5.pth" :=
        collect_state_dict 5 (mkModel "m" tt) tt None {["a/b" := 0.9%float]};
      "ckpt/best_model_a_b.pth" :=
        collect_state_dict 5 (mkModel "m" tt) tt None {["a/b" := 0.9%float]};
      "ckpt/notes.txt" :=
        collect_state_dict 0 (mkModel "" tt) tt None ∅]}
    [].

(** A checkpointer under [ckpt] with the given cleanup flags
    ([clear_intermediate_checkpoints], then [clear_all_checkpoints]). *)
Definition with_flags (intermediate all : bool) : @Checkpointer float :=
  mkCheckpointer "ckpt" 1 "epoch" (Some [("a/b", "max")]) {["a/b" := "max"]} 0
    intermediate all true {["a/b" := 0.9%float]}.

Lemma no_directory_listed_some_snapshots intermediate all :
  no_directory_listed (with_flags intermediate all) some_snapshots.
Proof.
  intros d Hd. destruct (glob_match _ _ d) eqn:Hlisted; [exfalso|done].
  rewrite glob_match_literal in Hlisted by reflexivity.
  change (checkpoint_path (with_flags intermediate all)) with "ckpt" in Hlisted.
  destruct (entry_name "ckpt" d) as [name|] eqn:Hname; [|done].
  apply entry_name_Some in Hname as [-> Hslash].
  assert (Hinside : ∀ rest file,
            file = ("ckpt" +:+ "/" +:+ name) +:+ "/" +:+ rest →
            match strip_prefix "ckpt/" file with
            | Some inside => occurs "/" inside = true
            | None => False
            end).
  { intros rest file ->.
    change (strip_prefix "ckpt/" (("ckpt" +:+ "/" +:+ name) +:+ "/" +:+ rest))
      with (Some (name +:+ String "/" rest)).
    cbv beta iota. rewrite occurs_app. cbn [occurs]. rewrite Ascii.eqb_refl. apply orb_true_r. }
  assert (Hdirs : ∀ p, p ∈ dirs some_snapshots → p = "ckpt").
  { intros p Hp. change (p ∈ ({["ckpt"]} : gset string)) in Hp.
    by apply elem_of_singleton in Hp. }
  destruct Hd as [Hd|(rest & [[c Hfile]|Hd])].
  - apply Hdirs in Hd. discriminate Hd.
  - unfold some_snapshots in Hfile. cbn [files] in Hfile.
    repeat (apply lookup_insert_Some in Hfile as [[Hkey _]|[_ Hfile]];
            [apply Hinside in Hkey; vm_compute in Hkey; discriminate Hkey|]).
    apply lookup_singleton_Some in Hfile as [Hkey _].
    apply Hinside in Hkey. vm_compute in Hkey. discriminate Hkey.
  - apply Hdirs in Hd. discriminate Hd.
Qed.


(** ** Properties of [get_batches] *)

Section SequentialSchedulerFacts.

Context {Tensor : Type}.

Lemma draw_exact (dataloader : DataLoader Tensor) bs :
  Forall (λ b, is_Some (b.1 !! uid dataloader)) bs →
  ∃ yielded,
    draw (task_to_label_dict dataloader) (data_name dataloader) (length bs) bs
         (split dataloader) (uid dataloader) = (yielded, None)
    ∧ Some <$> yielded = tagged dataloader <$> bs.
Proof.
  induction 1 as [|[X Y] bs [uids Hu] _ (yielded & IH & Htag)].
  - exists []. done.
  - cbn [fst] in Hu. cbn [length draw]. rewrite Hu, IH.
    eexists. split; [reflexivity|].
    cbn [fmap list_fmap]. unfold tagged at 1. cbn [fst snd]. rewrite Hu.
    cbn [mbind option_bind]. f_equal. exact Htag.
Qed.

Lemma get_batches_cons (dataloader : DataLoader Tensor) dataloaders :
  get_batches (dataloader :: dataloaders)
  = match draw (task_to_label_dict dataloader) (data_name dataloader) (len dataloader)
            (batches dataloader) (split dataloader) (uid dataloader) with
    | (yielded, Some e) => (yielded, Some e)
    | (yielded, None) =>
        let '(rest, raised) := get_batches dataloaders in (yielded ++ rest, raised)
    end.
Proof. reflexivity. Qed.

End SequentialSchedulerFacts.

(** C3.  For data sources that keep their contract, [get_batches] runs to
    the end and yields, in order, every batch of the first source tagged
    with the first source's unique ids, [task_to_label_dict], [data_name]
    and [split], then every batch of the second source, and so on: as many
    tuples as the declared batch counts add up to, none dropped, none
    repeated. *)
Theorem get_batches_is_sequential {Tensor : Type} (dataloaders : list (DataLoader Tensor)) :
  Forall well_formed dataloaders →
  ∃ yielded,
    get_batches dataloaders = (yielded, None)
    ∧ Some <$> yielded
      = mjoin ((λ dataloader, tagged dataloader <$> batches dataloader) <$> dataloaders)
    ∧ length yielded = sum_list (len <$> dataloaders).
Proof.
  induction 1 as [|dataloader dataloaders [Hlen Huid] _ (rest & IH & Htag & Hcount)].
  - exists []. done.
  - rewrite get_batches_cons. rewrite <- Hlen.
    destruct (draw_exact dataloader (batches dataloader) Huid) as (first & -> & Hfirst).
    rewrite IH. exists (first ++ rest). split; [done|]. split.
    + rewrite fmap_app, Hfirst, Htag. reflexivity.
    + rewrite length_app, Hcount. cbn [fmap list_fmap sum_list]. f_equal.
      rewrite <- Hlen. apply (f_equal length) in Hfirst.
      by rewrite !length_fmap in Hfirst.
Qed.

(** Two sources with batch counts 3 and 2; a tensor is a list of numbers,
    and the unique ids of the batches count up within each source. *)
Definition source_1 : DataLoader (list nat) :=
  mkDataLoader {["task_a" := "label_a"]} "uids" "first" "train" 3
    [({["uids" := [1]; "x" := [10]]}, {["label_a" := [0]]});
     ({["uids" := [2]; "x" := [20]]}, {["label_a" := [1]]});
     ({["uids" := [3]; "x" := [30]]}, {["label_a" := [0]]})]%nat.

Definition source_2 : DataLoader (list nat) :=
  mkDataLoader {["task_b" := "label_b"]} "ids" "second" "valid" 2
    [({["ids" := [1]; "x" := [40]]}, {["label_b" := [1]]});
     ({["ids" := [2]; "x" := [50]]}, {["label_b" := [1]]})]%nat.

Lemma get_batches_is_sequential_witness :
  (get_batches [source_1; source_2]).2 = None
  ∧ (λ t, (t.1.1.1.1.1, t.1.2, t.2)) <$> (get_batches [source_1; source_2]).1
    = [([1], "first", "train"); ([2], "first", "train"); ([3], "first", "train");
       ([1], "second", "valid"); ([2], "second", "valid")]%nat
  ∧ ∃ yielded,
      get_batches [source_1; source_2] = (yielded, None)
      ∧ Some <$> yielded
        = mjoin ((λ dataloader, tagged dataloader <$> batches dataloader)
                   <$> [source_1; source_2])
      ∧ length yielded = sum_list (len <$> [source_1; source_2]).
Proof.
  split; [reflexivity|]. split; [reflexivity|].
  apply (get_batches_is_sequential [source_1; source_2]).
  repeat constructor; simpl; eauto.
Defined.

(** * Further properties of the code *)

(** ** [is_new_best]: order of the keys, domain of the ledger, monotony *)

(** X1.  The loop of [is_new_best] may visit the keys of [metric_dict] in
    any order: every enumeration of the keys without repetition gives the
    ledger and the set that [is_new_best] gives. *)
Theorem is_new_best_in_any_key_order
    {V : Type} (ltb : V → V → bool) (self : @Checkpointer V)
    (metric_dict : gmap string V) (keys : list string) :
  NoDup keys →
  (∀ k, k ∈ keys ↔ is_Some (metric_dict !! k)) →
  (set_best_metric_dict (is_new_best_loop ltb self metric_dict keys).1 self,
   (is_new_best_loop ltb self metric_dict keys).2)
  = is_new_best ltb self metric_dict.
Proof.
  intros Hnd Hkeys. unfold is_new_best.
  rewrite <- (is_new_best_loop_order ltb self metric_dict keys Hnd Hkeys).
  by destruct (is_new_best_loop ltb self metric_dict keys).
Qed.

Lemma is_new_best_in_any_key_order_witness :
  (set_best_metric_dict
     (is_new_best_loop Float64.ltb loss_only
        {["acc" := 0.5%float; "loss" := 0.125%float; "other" := 1.5%float]}
        ["other"; "loss"; "acc"]).1 loss_only,
   (is_new_best_loop Float64.ltb loss_only
      {["acc" := 0.5%float; "loss" := 0.125%float; "other" := 1.5%float]}
      ["other"; "loss"; "acc"]).2)
  = is_new_best Float64.ltb loss_only
      {["acc" := 0.5%float; "loss" := 0.125%float; "other" := 1.5%float]}.
Proof.
  apply (is_new_best_in_any_key_order Float64.ltb loss_only
           {["acc" := 0.5%float; "loss" := 0.125%float; "other" := 1.5%float]}
           ["other"; "loss"; "acc"]).
  - repeat constructor; set_solver.
  - intros k. rewrite !elem_of_cons, elem_of_nil.
    split.
    + intros [-> | [->|[-> | []]]]; vm_compute; eauto.
    + intros [v Hv].
      destruct (decide (k = "other")) as [->|?]; [tauto|].
      destruct (decide (k = "loss")) as [->|?]; [tauto|].
      destruct (decide (k = "acc")) as [->|?]; [tauto|].
      exfalso. rewrite !lookup_insert_ne, lookup_singleton_ne in Hv by done.
      discriminate.
Defined.

(** X2.  After [is_new_best] the ledger has an entry for exactly the metrics
    it had one for and the tracked metrics of [metric_dict]; the returned
    metrics are among the latter. *)
Theorem is_new_best_ledger_domain
    {V : Type} (ltb : V → V → bool) (self : @Checkpointer V)
    (metric_dict : gmap string V) :
  dom (best_metric_dict (is_new_best ltb self metric_dict).1)
  = dom (best_metric_dict self) ∪ (dom metric_dict ∩ dom (checkpoint_all_metrics self))
  ∧ (is_new_best ltb self metric_dict).2
    ⊆ dom metric_dict ∩ dom (checkpoint_all_metrics self).
Proof.
  destruct (is_new_best_spec ltb self metric_dict) as [_ Hm].
  set (r := is_new_best ltb self metric_dict) in *.
  assert (Hfired : ∀ m, m ∈ r.2 → m ∈ dom metric_dict ∩ dom (checkpoint_all_metrics self)).
  { intros m (v & mode & Hv & Hmode & _)%Hm.
    apply elem_of_intersection. split; apply elem_of_dom; eauto. }
  split; [|intros m; apply Hfired].
  apply leibniz_equiv, set_equiv. intros m.
  destruct (Hm m) as (Hiff & Hin & Hout).
  rewrite elem_of_union, elem_of_intersection, !elem_of_dom.
  destruct (decide (m ∈ r.2)) as [Hf|Hf].
  - rewrite Hin by done. pose proof (Hfired m Hf) as Hd.
    rewrite elem_of_intersection, !elem_of_dom in Hd. tauto.
  - rewrite Hout by done. split; [tauto|]. intros [?|[[v Hv] [mode Hmode]]]; [done|].
    destruct (best_metric_dict self !! m) as [b|] eqn:Hb; [eauto|].
    exfalso. apply Hf, Hiff. exists v, mode. eauto.
Qed.

(** X3.  [is_new_best] never drops a ledger entry and never makes one
    worse: an entry is kept as it is, or replaced by a value that is
    strictly better under the metric's mode. *)
Theorem is_new_best_never_worsens
    {V : Type} (ltb : V → V → bool) (self : @Checkpointer V)
    (metric_dict : gmap string V) (m : string) (b : V) :
  best_metric_dict self !! m = Some b →
  ∃ b', best_metric_dict (is_new_best ltb self metric_dict).1 !! m = Some b'
        ∧ (b' = b
           ∨ ∃ mode, checkpoint_all_metrics self !! m = Some mode
                     ∧ metric_dict !! m = Some b' ∧ improves ltb mode b' b).
Proof.
  intros Hb. destruct (is_new_best_spec ltb self metric_dict) as [_ Hm].
  destruct (Hm m) as (Hiff & Hin & Hout).
  destruct (decide (m ∈ (is_new_best ltb self metric_dict).2)) as [Hf|Hf].
  - pose proof (proj1 Hiff Hf) as (v & mode & Hv & Hmode & [Hnone|(b0 & Hb0 & Himp)]);
      [congruence|].
    assert (b0 = b) by congruence. subst b0.
    exists v. rewrite Hin, Hv by done. split; [done|]. right. eauto.
  - exists b. rewrite Hout by done. eauto.
Qed.

Lemma is_new_best_never_worsens_witness :
  ∃ b', best_metric_dict
          (is_new_best Float64.ltb loss_only
             {["loss" := 0.125%float; "acc" := 0.5%float]}).1 !! "loss" = Some b'
        ∧ (b' = 0.25%float
           ∨ ∃ mode, checkpoint_all_metrics loss_only !! "loss" = Some mode
                     ∧ ({["loss" := 0.125%float; "acc" := 0.5%float]} : gmap string float)
                         !! "loss" = Some b'
                     ∧ improves Float64.ltb mode b' 0.25%float).
Proof.
  apply (is_new_best_never_worsens Float64.ltb loss_only
           {["loss" := 0.125%float; "acc" := 0.5%float]} "loss" 0.25%float).
  reflexivity.
Defined.

(** X4.  Passing the same [metric_dict] again sets no new best: the second
    call returns the empty set and leaves [self] as the first call left it
    ([<] irreflexive). *)
Theorem is_new_best_again_returns_nothing
    {V : Type} (ltb : V → V → bool) (self : @Checkpointer V)
    (metric_dict : gmap string V) :
  (∀ x, ltb x x = false) →
  is_new_best ltb (is_new_best ltb self metric_dict).1 metric_dict
  = ((is_new_best ltb self metric_dict).1, ∅).
Proof.
  intros Hirr.
  destruct (is_new_best_spec ltb self metric_dict) as [Hself Hm].
  set (r := is_new_best ltb self metric_dict) in *.
  destruct (is_new_best_spec ltb r.1 metric_dict) as [Hself2 Hm2].
  set (r2 := is_new_best ltb r.1 metric_dict) in *.
  assert (Hall : checkpoint_all_metrics r.1 = checkpoint_all_metrics self)
    by (by rewrite Hself).
  assert (Hnone : ∀ m, m ∉ r2.2).
  { intros m Hf2. apply Hm2 in Hf2 as (v & mode & Hv & Hmode & Hcase).
    rewrite Hall in Hmode. destruct (Hm m) as (Hiff & Hin & Hout).
    destruct (decide (m ∈ r.2)) as [Hf|Hf].
    - rewrite Hin, Hv in Hcase by done.
      destruct Hcase as [?|(b & [= <-] & [[_ H]|[_ H]])]; [done| |];
        by rewrite Hirr in H.
    - rewrite Hout in Hcase by done. apply Hf, Hiff. exists v, mode. eauto. }
  destruct r2 as [self2 s2] eqn:E. cbn [fst snd] in *.
  assert (s2 = ∅) as -> by (apply leibniz_equiv, set_equiv; set_solver).
  f_equal. rewrite Hself2.
  assert (best_metric_dict self2 = best_metric_dict r.1) as ->.
  { apply map_eq. intros m. by apply Hm2. }
  apply set_best_metric_dict_id.
Qed.

Lemma is_new_best_again_returns_nothing_witness :
  is_new_best Float64.ltb
    (is_new_best Float64.ltb loss_only {["loss" := 0.125%float; "acc" := 0.5%float]}).1
    {["loss" := 0.125%float; "acc" := 0.5%float]}
  = ((is_new_best Float64.ltb loss_only {["loss" := 0.125%float; "acc" := 0.5%float]}).1,
     ∅).
Proof.
  apply (is_new_best_again_returns_nothing Float64.ltb loss_only
           {["loss" := 0.125%float; "acc" := 0.5%float]}).
  exact Float64.ltb_irrefl.
Defined.

(** ** [checkpoint]: what a call may change *)

#[export] Instance event_eq_dec : EqDecision event.
Proof. solve_decision. Defined.

(** The one-time notice of [checkpoint]. *)
Definition runway_notice : event :=
  LogInfo "checkpoint_runway condition has been met. Start checkpoining.".

(** How often the notice occurs in a trace. *)
Definition notice_count (events : list event) : nat :=
  length (filter (λ e, e = runway_notice) events).

Section CheckpointStep.

Context {V Params OptState LrState : Type}.
Variable ltb : V → V → bool.

Lemma notice_count_app events events' :
  notice_count (events ++ events') = (notice_count events + notice_count events')%nat.
Proof. unfold notice_count. by rewrite filter_app, length_app. Qed.

Lemma notice_count_copy_trace (self : @Checkpointer V) src metrics :
  notice_count (copy_trace self src metrics) = 0%nat.
Proof.
  unfold notice_count. induction metrics as [|m metrics IH]; [done|].
  cbn [copy_trace flat_map app]. fold (copy_trace self src metrics).
  rewrite filter_cons_False by discriminate.
  rewrite filter_cons_False; [exact IH|].
  unfold runway_notice. by intros [= ?].
Qed.

(** One call, in both cases: it returns, leaves the directories alone, only
    adds to the trace, changes nothing of [self] but the flag and the
    ledger, sets the flag when the runway is reached, and logs the notice
    when it sets the flag. *)
Lemma checkpoint_step (self : @Checkpointer V) iteration (model : @Model Params)
    (optimizer : OptState) (lr_scheduler : option LrState) md
    (w : World (@StateDict V Params OptState LrState)) :
  ∃ self' w' events,
    checkpoint ltb self iteration model optimizer lr_scheduler md w = (inr self', w')
    ∧ dirs w' = dirs w
    ∧ trace w' = trace w ++ events
    ∧ self' = set_best_metric_dict (best_metric_dict self')
                (set_checkpoint_condition_met (checkpoint_condition_met self') self)
    ∧ checkpoint_condition_met self'
      = checkpoint_condition_met self || (checkpoint_runway self <=? iteration)%Z
    ∧ notice_count events
      = (if negb (checkpoint_condition_met self) && (checkpoint_runway self <=? iteration)%Z
         then 1 else 0)%nat.
Proof.
  destruct (Z.leb_spec (checkpoint_runway self) iteration) as [Hge|Hlt].
  - destruct (is_new_best_spec ltb (set_checkpoint_condition_met true self) md)
      as [Hself _].
    destruct (checkpoint_condition_met self) eqn:Hmet; cbn [negb orb andb];
      eexists _, _, _; (split; [by apply checkpoint_past_runway|]);
      unfold checkpoint_outcome; rewrite Hmet; cbn [fst snd dirs trace emit];
      set (r := is_new_best ltb (set_checkpoint_condition_met true self) md) in *;
      (split; [done|]); (split; [try rewrite <- app_assoc; reflexivity|]);
      (split; [rewrite Hself at 1; rewrite Hself; destruct self; cbn in *; congruence|]);
      (split; [by rewrite Hself|]);
      rewrite ?notice_count_app, notice_count_copy_trace; reflexivity.
  - exists self, w, []. rewrite checkpoint_below_runway by done.
    rewrite app_nil_r, orb_false_r, andb_false_r.
    repeat split; try done. by destruct self.
Qed.

End CheckpointStep.

(** X5.  [checkpoint] never raises, whatever it is called with; it leaves
    every directory alone, only adds to the trace of effects, and changes
    nothing of [self] but the transition flag and the ledger; a flag that
    is set stays set. *)
Theorem checkpoint_never_raises
    {V Params OptState LrState : Type} (ltb : V → V → bool)
    (self : @Checkpointer V) iteration (model : @Model Params) (optimizer : OptState)
    (lr_scheduler : option LrState) metric_dict
    (w : World (@StateDict V Params OptState LrState)) :
  ∃ self' w',
    checkpoint ltb self iteration model optimizer lr_scheduler metric_dict w
    = (inr self', w')
    ∧ dirs w' = dirs w
    ∧ (∃ events, trace w' = trace w ++ events)
    ∧ self' = set_best_metric_dict (best_metric_dict self')
                (set_checkpoint_condition_met (checkpoint_condition_met self') self)
    ∧ (checkpoint_condition_met self = true → checkpoint_condition_met self' = true).
Proof.
  destruct (checkpoint_step ltb self iteration model optimizer lr_scheduler metric_dict w)
    as (self' & w' & events & Hrun & Hdirs & Htrace & Hself & Hmet & _).
  exists self', w'. split; [done|]. split; [done|]. split; [eauto|]. split; [done|].
  intros Hset. by rewrite Hmet, Hset.
Qed.

(** X6.  A call past the runway writes [checkpoint_<iteration>.pth] and the
    best-model files of the new bests, and no other file: every other path
    holds what it held (or is as absent as it was). *)
Theorem checkpoint_leaves_other_files
    {V Params OptState LrState : Type} (ltb : V → V → bool)
    (self : @Checkpointer V) iteration (model : @Model Params) (optimizer : OptState)
    (lr_scheduler : option LrState) metric_dict
    (w : World (@StateDict V Params OptState LrState)) :
  checkpoint_runway self ≤ iteration →
  ∃ self' w',
    checkpoint ltb self iteration model optimizer lr_scheduler metric_dict w
    = (inr self', w')
    ∧ ∀ p,
        p ≠ checkpoint_file self iteration →
        (∀ m, new_best ltb (checkpoint_all_metrics self) (best_metric_dict self)
                metric_dict m → p ≠ best_model_file self m) →
        files w' !! p = files w !! p.
Proof.
  intros Hrun.
  destruct (checkpoint_files ltb self iteration model optimizer lr_scheduler metric_dict
              w Hrun) as (self' & w' & Hck & _ & _ & _ & Hother & _).
  exists self', w'. split; [done|]. intros p Hp Hbest. apply Hother; [done|].
  intros m Hm. apply Hbest. by apply (is_new_best_spec ltb self metric_dict).
Qed.

Lemma checkpoint_leaves_other_files_witness :
  ∃ self' w',
    checkpoint Float64.ltb loss_only 4 (mkModel "m" 7%nat) tt (@None unit)
      {["loss" := 0.5%float; "acc" := 0.5%float]} loss_only_world
    = (inr self', w')
    ∧ ∀ p,
        p ≠ checkpoint_file loss_only 4 →
        (∀ m, new_best Float64.ltb (checkpoint_all_metrics loss_only)
                (best_metric_dict loss_only)
                {["loss" := 0.5%float; "acc" := 0.5%float]} m →
              p ≠ best_model_file loss_only m) →
        files w' !! p = files loss_only_world !! p.
Proof.
  apply (checkpoint_leaves_other_files Float64.ltb loss_only 4 (mkModel "m" 7%nat) tt
           None {["loss" := 0.5%float; "acc" := 0.5%float]} loss_only_world).
  vm_compute. discriminate.
Defined.

(** X7.  Over any sequence of calls on a checkpointer whose transition flag
    is not set, the notice that checkpointing starts is logged once if some
    call reaches the runway and never otherwise, and the flag ends up set
    exactly in the first case. *)
Theorem runway_notice_is_logged_once
    {V Params OptState LrState : Type} (ltb : V → V → bool)
    (calls : list (@Call V Params OptState LrState)) (self : @Checkpointer V)
    (w : World (@StateDict V Params OptState LrState)) :
  checkpoint_condition_met self = false →
  ∃ self' w' events,
    checkpoints ltb self calls w = (inr self', w')
    ∧ trace w' = trace w ++ events
    ∧ checkpoint_condition_met self'
      = existsb (λ c, (checkpoint_runway self <=? call_iteration c)%Z) calls
    ∧ notice_count events
      = (if existsb (λ c, (checkpoint_runway self <=? call_iteration c)%Z) calls
         then 1 else 0)%nat.
Proof.
  assert (Hgen : ∀ (self : @Checkpointer V) w,
    ∃ self' w' events,
      checkpoints ltb self calls w = (inr self', w')
      ∧ trace w' = trace w ++ events
      ∧ checkpoint_condition_met self'
        = checkpoint_condition_met self
          || existsb (λ c, (checkpoint_runway self <=? call_iteration c)%Z) calls
      ∧ notice_count events
        = (if negb (checkpoint_condition_met self)
              && existsb (λ c, (checkpoint_runway self <=? call_iteration c)%Z) calls
           then 1 else 0)%nat).
  { clear self w. induction calls as [|c calls IH]; intros self w.
    - exists self, w, []. cbn [checkpoints existsb].
      rewrite app_nil_r, orb_false_r, andb_false_r. done.
    - cbn [checkpoints existsb]. rewrite io_bind_run.
      destruct (checkpoint_step ltb self (call_iteration c) (call_model c)
                  (call_optimizer c) (call_lr_scheduler c) (call_metric_dict c) w)
        as (self1 & w1 & ev1 & -> & _ & Ht1 & Hself1 & Hmet1 & Hn1).
      destruct (IH self1 w1) as (self' & w' & ev & Hrun & Ht & Hmet & Hn).
      assert (Hrunway : checkpoint_runway self1 = checkpoint_runway self)
        by (by rewrite Hself1).
      rewrite Hrunway in Hmet, Hn.
      exists self', w', (ev1 ++ ev). split; [done|]. split; [|split].
      + by rewrite Ht, Ht1, app_assoc.
      + rewrite Hmet, Hmet1. by rewrite orb_assoc.
      + rewrite notice_count_app, Hn, Hn1, Hmet1.
        destruct (checkpoint_condition_met self),
          (checkpoint_runway self <=? call_iteration c)%Z,
          (existsb _ calls); reflexivity. }
  intros Hmet. destruct (Hgen self w) as (self' & w' & events & Hrun & Ht & Hm & Hn).
  rewrite Hmet in Hm, Hn. eauto 10.
Qed.

Lemma runway_notice_is_logged_once_witness :
  ∃ self' w' events,
    checkpoints Float64.ltb
      (mkCheckpointer "ckpt" 1 "epoch" (Some [("acc", "max")]) {["acc" := "max"]} 10
         false false false ∅)
      [Run.acc_call 1 0.9; Run.acc_call 10 0.5; Run.acc_call 11 0.7; Run.acc_call 3 0.6]
      Run.empty_world
    = (inr self', w')
    ∧ trace w' = trace Run.empty_world ++ events
    ∧ checkpoint_condition_met self'
      = existsb (λ c, (10 <=? call_iteration c)%Z)
          [Run.acc_call 1 0.9; Run.acc_call 10 0.5; Run.acc_call 11 0.7; Run.acc_call 3 0.6]
    ∧ notice_count events
      = (if existsb (λ c, (10 <=? call_iteration c)%Z)
              [Run.acc_call 1 0.9; Run.acc_call 10 0.5; Run.acc_call 11 0.7;
               Run.acc_call 3 0.6]
         then 1 else 0)%nat.
Proof.
  apply (runway_notice_is_logged_once Float64.ltb
           [Run.acc_call 1 0.9; Run.acc_call 10 0.5; Run.acc_call 11 0.7; Run.acc_call 3 0.6]
           (mkCheckpointer "ckpt" 1 "epoch" (Some [("acc", "max")]) {["acc" := "max"]} 10
              false false false ∅)
           Run.empty_world).
  reflexivity.
Defined.

(** ** [load_best_model]: restoring what [checkpoint] saved *)

Section Restore.

Context {V Params OptState LrState : Type}.
Variable ltb : V → V → bool.

Abbreviation restore_world := (World (@StateDict V Params OptState LrState)).

Lemma string_length_app a b :
  String.length (a +:+ b) = (String.length a + String.length b)%nat.
Proof. induction a as [|c a IH]; simpl; [done|]. by rewrite IH. Qed.

Lemma string_app_inj_r a b s : a +:+ s = b +:+ s → a = b.
Proof.
  revert b. induction a as [|c a IH]; intros [|d b] H.
  - done.
  - apply (f_equal String.length) in H. simpl in H.
    rewrite !string_length_app in H. simpl in H. lia.
  - apply (f_equal String.length) in H. simpl in H.
    rewrite !string_length_app in H. simpl in H. lia.
  - change (String c a +:+ s) with (String c (a +:+ s)) in H.
    change (String d b +:+ s) with (String d (b +:+ s)) in H.
    injection H as -> H. f_equal. by apply IH.
Qed.

(** Two metrics share a best-model file exactly when their names agree once
    [/] is replaced by [_]. *)
Lemma best_model_file_eq (self : @Checkpointer V) m1 m2 :
  best_model_file self m1 = best_model_file self m2 ↔ replace_slash m1 = replace_slash m2.
Proof.
  unfold best_model_file. split; [|by intros ->].
  intros H. apply (inj (String.append _)) in H.
  apply (inj (String.append "/best_model_")) in H.
  by apply string_app_inj_r in H.
Qed.

(** The two ways [load_best_model] goes when the ledger has an entry for the
    first key of [checkpoint_metric]. *)
Lemma load_best_model_found (self : @Checkpointer V) (model : @Model Params)
    (w : restore_world) metric mode rest sd :
  checkpoint_metric self = Some ((metric, mode) :: rest) →
  is_Some (best_metric_dict self !! metric) →
  files w !! best_model_file self metric = Some sd →
  load_best_model self model w
  = (inr (mkModel (mp_name (sd_model sd)) (mp_module_pool (sd_model sd))),
     mkWorld (dirs w) (files w)
       (trace w ++ [LogInfo ("Loading the best model from "
                             +:+ best_model_file self metric +:+ ".");
                    TorchLoad (best_model_file self metric); MoveToDevice])).
Proof.
  intros Hcm Hentry Hfile. unfold load_best_model. rewrite Hcm.
  cbn [fmap list_fmap fst].
  rewrite bool_decide_eq_false_2 by (intros Hn; by apply Hn, elem_of_dom).
  rewrite io_bind_run, log_info_run, io_bind_run. unfold torch_load, emit.
  cbn [files]. rewrite Hfile. rewrite io_bind_run. unfold move_to_device, emit.
  cbn [dirs files trace]. rewrite io_ret_run. by rewrite <- !app_assoc.
Qed.

Lemma load_best_model_file_missing (self : @Checkpointer V) (model : @Model Params)
    (w : restore_world) metric mode rest :
  checkpoint_metric self = Some ((metric, mode) :: rest) →
  is_Some (best_metric_dict self !! metric) →
  files w !! best_model_file self metric = None →
  load_best_model self model w
  = (inl FileNotFoundError,
     mkWorld (dirs w) (files w)
       (trace w ++ [LogInfo ("Loading the best model from "
                             +:+ best_model_file self metric +:+ ".")])).
Proof.
  intros Hcm Hentry Hfile. unfold load_best_model. rewrite Hcm.
  cbn [fmap list_fmap fst].
  rewrite bool_decide_eq_false_2 by (intros Hn; by apply Hn, elem_of_dom).
  rewrite io_bind_run, log_info_run, io_bind_run. unfold torch_load, emit.
  cbn [files]. by rewrite Hfile.
Qed.

(** Every ledger entry belongs to a tracked metric and has a best-model file
    holding a snapshot whose [metric_dict] gives the entry. *)
Definition best_files_match (self : @Checkpointer V) (w : restore_world) : Prop :=
  ∀ m b, best_metric_dict self !! m = Some b →
    is_Some (checkpoint_all_metrics self !! m)
    ∧ ∃ sd, files w !! best_model_file self m = Some sd ∧ sd_metric_dict sd !! m = Some b.

(** No two tracked metrics share a best-model file name. *)
Definition distinct_file_names (tracked : gmap string string) : Prop :=
  ∀ m1 m2, is_Some (tracked !! m1) → is_Some (tracked !! m2) →
    replace_slash m1 = replace_slash m2 → m1 = m2.

Lemma checkpoint_best_files_match (self : @Checkpointer V) iteration (model : @Model Params)
    (optimizer : OptState) (lr_scheduler : option LrState) md (w : restore_world) :
  distinct_file_names (checkpoint_all_metrics self) →
  best_files_match self w →
  ∃ self' w',
    checkpoint ltb self iteration model optimizer lr_scheduler md w = (inr self', w')
    ∧ checkpoint_all_metrics self' = checkpoint_all_metrics self
    ∧ checkpoint_metric self' = checkpoint_metric self
    ∧ best_files_match self' w'.
Proof.
  intros Hdist Hinv.
  destruct (Z.ltb_spec iteration (checkpoint_runway self)) as [Hlt|Hge].
  - exists self, w. by rewrite checkpoint_below_runway.
  - destruct (checkpoint_files ltb self iteration model optimizer lr_scheduler md w Hge)
      as (self' & w' & Hck & _ & _ & Hbest & Hother & _).
    destruct (checkpoint_step ltb self iteration model optimizer lr_scheduler md w)
      as (self1 & w1 & ev & Hck1 & _ & _ & Hself & _).
    rewrite Hck in Hck1. injection Hck1 as <- <-.
    destruct (checkpoint_ledger ltb self iteration model optimizer lr_scheduler md w Hge)
      as (self2 & w2 & Hck2 & Hledger & Hall & _).
    rewrite Hck in Hck2. injection Hck2 as <- <-.
    destruct (is_new_best_spec ltb self md) as [_ Hm].
    assert (Hpath : ∀ m, best_model_file self' m = best_model_file self m)
      by (intros m; rewrite Hself; reflexivity).
    exists self', w'. split; [done|]. split; [done|].
    split; [by rewrite Hself|].
    intros m b Hb. rewrite Hledger in Hb. rewrite Hall, Hpath.
    destruct (Hm m) as (Hiff & Hin & Hout).
    destruct (decide (m ∈ (is_new_best ltb self md).2)) as [Hf|Hf].
    + rewrite Hin in Hb by done.
      apply Hiff in Hf as Hnew. destruct Hnew as (v & mode & Hv & Hmode & _).
      split; [eauto|]. eexists. split; [by apply Hbest|]. done.
    + rewrite Hout in Hb by done.
      destruct (Hinv m b Hb) as (Htracked & sd & Hfile & Hsd).
      split; [done|]. exists sd. split; [|done].
      rewrite Hother; [done| |].
      * intros Heq. symmetry in Heq.
        by apply checkpoint_file_ne_best_model_file in Heq.
      * intros m' Hf' Heq. apply best_model_file_eq in Heq.
        destruct (Hm m') as (Hiff' & _ & _).
        apply Hiff' in Hf' as Hnew'. destruct Hnew' as (v & mode & _ & Hmode & _).
        assert (m = m') by (apply Hdist; eauto). by subst m'.
Qed.

Lemma checkpoints_best_files_match calls :
  ∀ (self : @Checkpointer V) (w : restore_world),
    distinct_file_names (checkpoint_all_metrics self) →
    best_files_match self w →
    ∃ self' w',
      checkpoints ltb self calls w = (inr self', w')
      ∧ checkpoint_metric self' = checkpoint_metric self
      ∧ best_files_match self' w'.
Proof.
  induction calls as [|c calls IH]; intros self w Hdist Hinv.
  - exists self, w. done.
  - cbn [checkpoints]. rewrite io_bind_run.
    destruct (checkpoint_best_files_match self (call_iteration c) (call_model c)
                (call_optimizer c) (call_lr_scheduler c) (call_metric_dict c) w Hdist Hinv)
      as (self1 & w1 & -> & Hall & Hcm & Hinv1).
    rewrite <- Hall in Hdist.
    destruct (IH self1 w1 Hdist Hinv1) as (self' & w' & Hrun & Hcm' & Hinv').
    exists self', w'. split; [done|]. split; [congruence|done].
Qed.

End Restore.

Lemma load_best_model_no_entry
    {V Params OptState LrState : Type} (self : @Checkpointer V) (model : @Model Params)
    (w : World (@StateDict V Params OptState LrState)) metric mode rest :
  checkpoint_metric self = Some ((metric, mode) :: rest) →
  best_metric_dict self !! metric = None →
  load_best_model self model w
  = (inr model, emit (LogInfo "No best model found, use the original model.") w).
Proof.
  intros Hcm Hnone. unfold load_best_model. rewrite Hcm. cbn [fmap list_fmap fst].
  rewrite bool_decide_eq_true_2 by (by apply not_elem_of_dom).
  reflexivity.
Qed.

(** X8.  Save, then restore: after a call past the runway that sets a new
    best for the first key of [checkpoint_metric], [load_best_model] gives
    back the model that was checkpointed (its name and parameters),
    whatever model it is handed; it reads the best-model file and changes
    no file. *)
Theorem load_best_model_returns_checkpointed_model
    {V Params OptState LrState : Type} (ltb : V → V → bool)
    (self : @Checkpointer V) iteration (model other : @Model Params)
    (optimizer : OptState) (lr_scheduler : option LrState) metric_dict
    (w : World (@StateDict V Params OptState LrState)) metric mode rest :
  checkpoint_runway self ≤ iteration →
  checkpoint_metric self = Some ((metric, mode) :: rest) →
  new_best ltb (checkpoint_all_metrics self) (best_metric_dict self) metric_dict metric →
  ∃ self' w' w'',
    checkpoint ltb self iteration model optimizer lr_scheduler metric_dict w
    = (inr self', w')
    ∧ load_best_model self' other w' = (inr model, w'')
    ∧ files w'' = files w'
    ∧ TorchLoad (best_model_file self metric) ∈ trace w''.
Proof.
  intros Hrun Hcm Hnew.
  destruct (checkpoint_files ltb self iteration model optimizer lr_scheduler metric_dict
              w Hrun) as (self' & w' & Hck & _ & _ & Hbest & _).
  destruct (checkpoint_step ltb self iteration model optimizer lr_scheduler metric_dict w)
    as (self1 & w1 & ev & Hck1 & _ & _ & Hself & _).
  rewrite Hck in Hck1. injection Hck1 as <- <-.
  destruct (checkpoint_ledger ltb self iteration model optimizer lr_scheduler metric_dict
              w Hrun) as (self2 & w2 & Hck2 & Hledger & _).
  rewrite Hck in Hck2. injection Hck2 as <- <-.
  destruct (is_new_best_spec ltb self metric_dict) as [_ Hm].
  destruct (Hm metric) as (Hiff & Hin & _).
  pose proof (proj2 Hiff Hnew) as Hfired.
  assert (Hpath : best_model_file self' metric = best_model_file self metric)
    by (rewrite Hself; reflexivity).
  assert (Hcm' : checkpoint_metric self' = Some ((metric, mode) :: rest))
    by (rewrite Hself; exact Hcm).
  assert (Hentry : is_Some (best_metric_dict self' !! metric)).
  { rewrite Hledger, Hin by done. destruct Hnew as (v & _ & -> & _). eauto. }
  pose proof (Hbest metric Hfired) as Hfile. rewrite <- Hpath in Hfile.
  eexists self', w', _. split; [done|].
  rewrite (load_best_model_found self' other w' metric mode rest _ Hcm' Hentry Hfile).
  cbn [collect_state_dict sd_model mp_name mp_module_pool files trace].
  split; [by destruct model|]. split; [done|]. rewrite Hpath. set_solver.
Qed.

Lemma load_best_model_returns_checkpointed_model_witness :
  ∃ self' w' w'',
    checkpoint Float64.ltb loss_only 4 (mkModel "trained" 42%nat) tt (@None unit)
      {["acc" := 0.5%float]} loss_only_world
    = (inr self', w')
    ∧ load_best_model self' (mkModel "fresh" 0%nat) w' = (inr (mkModel "trained" 42%nat), w'')
    ∧ files w'' = files w'
    ∧ TorchLoad (best_model_file loss_only "acc") ∈ trace w''.
Proof.
  apply (load_best_model_returns_checkpointed_model Float64.ltb loss_only 4
           (mkModel "trained" 42%nat) (mkModel "fresh" 0%nat) tt None
           {["acc" := 0.5%float]} loss_only_world "acc" "max" [("loss", "min")]).
  - vm_compute. discriminate.
  - reflexivity.
  - exists 0.5%float, "max". split; [reflexivity|]. split; [reflexivity|]. by left.
Defined.

(** X9.  After construction and any sequence of calls, when no two tracked
    metrics share a best-model file name (names that differ only by [/] and
    [_] would), every ledger entry has its best-model file, and the
    snapshot in it records, for that metric, the value in the ledger. *)
Theorem best_model_files_agree_with_ledger
    {V Params OptState LrState : Type} (ltb : V → V → bool) (cfg : Config)
    (w w0 : World (@StateDict V Params OptState LrState)) (self : @Checkpointer V)
    (calls : list (@Call V Params OptState LrState)) :
  init cfg w = (inr self, w0) →
  distinct_file_names (tracked_metrics cfg) →
  ∃ self' w',
    checkpoints ltb self calls w0 = (inr self', w')
    ∧ ∀ m b, best_metric_dict self' !! m = Some b →
        ∃ sd, files w' !! best_model_file self' m = Some sd
              ∧ sd_metric_dict sd !! m = Some b.
Proof.
  intros Hinit Hdist.
  destruct (init_run cfg w) as [[_ Hbad]|(_ & w2 & _ & _ & [[_ Hbad]|[_ Hok]])];
    try (rewrite Hinit in Hbad; discriminate).
  rewrite Hinit in Hok. injection Hok as -> ->.
  set (self := mkCheckpointer _ _ _ _ _ _ _ _ _ _) in *.
  assert (Hinv : best_files_match self w2).
  { intros m b Hb. cbn in Hb. by rewrite lookup_empty in Hb. }
  destruct (checkpoints_best_files_match ltb calls self w2 Hdist Hinv)
    as (self' & w' & Hrun & _ & Hinv').
  exists self', w'. split; [done|]. intros m b Hb. by apply Hinv'.
Qed.

Lemma best_model_files_agree_with_ledger_witness :
  ∃ self' w',
    checkpoints Float64.ltb
      (mkCheckpointer "ckpt" 1 "epoch" (Some [("acc", "max")]) {["acc" := "max"]} 10
         false false false ∅)
      [Run.acc_call 1 0.9; Run.acc_call 10 0.5; Run.acc_call 11 0.7; Run.acc_call 12 0.6]
      (mkWorld {["ckpt"]} ∅
         [Makedirs "ckpt"; LogInfo "Save checkpoints at ckpt every 1 epoch";
          LogInfo "No checkpoints saved before 10 epoch."])
    = (inr self', w')
    ∧ ∀ m b, best_metric_dict self' !! m = Some b →
        ∃ sd, files w' !! best_model_file self' m = Some sd
              ∧ sd_metric_dict sd !! m = Some b.
Proof.
  apply (best_model_files_agree_with_ledger Float64.ltb (Run.acc_config 10)
           Run.empty_world).
  - vm_compute. reflexivity.
  - intros m1 m2 [mode1 H1] [mode2 H2] _.
    change (tracked_metrics (Run.acc_config 10)) with ({["acc" := "max"]} : gmap string string)
      in H1, H2.
    apply lookup_singleton_Some in H1 as [<- _].
    by apply lookup_singleton_Some in H2 as [<- _].
Defined.

(** X10.  After construction and any sequence of calls, under the same
    condition on file names and with a non-empty [checkpoint_metric],
    [load_best_model] does not raise: with no ledger entry for the first
    key it returns the model it was handed, otherwise the model stored in
    a snapshot that records the ledger's value for that key. *)
Theorem load_best_model_after_calls_succeeds
    {V Params OptState LrState : Type} (ltb : V → V → bool) (cfg : Config)
    (w w0 : World (@StateDict V Params OptState LrState)) (self : @Checkpointer V)
    (calls : list (@Call V Params OptState LrState)) (model : @Model Params)
    metric mode rest :
  init cfg w = (inr self, w0) →
  distinct_file_names (tracked_metrics cfg) →
  cfg_checkpoint_metric cfg = Some ((metric, mode) :: rest) →
  ∃ self' w' restored w'',
    checkpoints ltb self calls w0 = (inr self', w')
    ∧ load_best_model self' model w' = (inr restored, w'')
    ∧ (best_metric_dict self' !! metric = None → restored = model)
    ∧ (∀ b, best_metric_dict self' !! metric = Some b →
         ∃ sd, files w' !! best_model_file self' metric = Some sd
               ∧ sd_metric_dict sd !! metric = Some b
               ∧ restored = mkModel (mp_name (sd_model sd)) (mp_module_pool (sd_model sd))).
Proof.
  intros Hinit Hdist Hcm.
  destruct (init_run cfg w) as [[_ Hbad]|(_ & w2 & _ & _ & [[_ Hbad]|[_ Hok]])];
    try (rewrite Hinit in Hbad; discriminate).
  rewrite Hinit in Hok. injection Hok as -> ->.
  set (self := mkCheckpointer _ _ _ _ _ _ _ _ _ _) in *.
  assert (Hinv : best_files_match self w2).
  { intros m b Hb. cbn in Hb. by rewrite lookup_empty in Hb. }
  destruct (checkpoints_best_files_match ltb calls self w2 Hdist Hinv)
    as (self' & w' & Hrun & Hcm' & Hinv').
  change (checkpoint_metric self) with (cfg_checkpoint_metric cfg) in Hcm'.
  rewrite Hcm in Hcm'.
  destruct (best_metric_dict self' !! metric) as [b|] eqn:Hb.
  - destruct (Hinv' metric b Hb) as (_ & sd & Hfile & Hsd).
    eexists self', w', _, _. split; [done|]. split.
    + apply (load_best_model_found self' model w' metric mode rest sd); eauto.
    + split; [intros Hn; congruence|]. intros b' Hb'.
      assert (b' = b) by congruence. subst b'. eauto.
  - eexists self', w', _, _. split; [done|]. split.
    + by apply (load_best_model_no_entry self' model w' metric mode rest).
    + split; [done|]. intros b' Hb'. congruence.
Qed.

Lemma load_best_model_after_calls_succeeds_witness :
  ∃ self' w' restored w'',
    checkpoints Float64.ltb
      (mkCheckpointer "ckpt" 1 "epoch" (Some [("acc", "max")]) {["acc" := "max"]} 10
         false false false ∅)
      [Run.acc_call 1 0.9; Run.acc_call 10 0.5; Run.acc_call 11 0.7; Run.acc_call 12 0.6]
      (mkWorld {["ckpt"]} ∅
         [Makedirs "ckpt"; LogInfo "Save checkpoints at ckpt every 1 epoch";
          LogInfo "No checkpoints saved before 10 epoch."])
    = (inr self', w')
    ∧ load_best_model self' (mkModel "fresh" tt) w' = (inr restored, w'')
    ∧ (best_metric_dict self' !! "acc" = None → restored = mkModel "fresh" tt)
    ∧ (∀ b, best_metric_dict self' !! "acc" = Some b →
         ∃ sd, files w' !! best_model_file self' "acc" = Some sd
               ∧ sd_metric_dict sd !! "acc" = Some b
               ∧ restored = mkModel (mp_name (sd_model sd)) (mp_module_pool (sd_model sd))).
Proof.
  apply (load_best_model_after_calls_succeeds Float64.ltb (Run.acc_config 10)
           Run.empty_world _ _ _ (mkModel "fresh" tt) "acc" "max" []).
  - vm_compute. reflexivity.
  - intros m1 m2 [mode1 H1] [mode2 H2] _.
    change (tracked_metrics (Run.acc_config 10)) with ({["acc" := "max"]} : gmap string string)
      in H1, H2.
    apply lookup_singleton_Some in H1 as [<- _].
    by apply lookup_singleton_Some in H2 as [<- _].
  - reflexivity.
Defined.

(** ** [clear] and what is left to restore *)

Section ClearScope.

Context {V Params OptState LrState : Type}.

Abbreviation scope_world := (World (@StateDict V Params OptState LrState)).

Lemma fnmatch_star_inv pat name :
  fnmatch (String "*" pat) name = true →
  ∃ pre s, name = pre +:+ s ∧ fnmatch pat s = true.
Proof.
  induction name as [|c name IH]; rewrite fnmatch_star_unfold.
  - rewrite orb_false_r. intros H. by exists "", "".
  - intros [H|H]%orb_true_iff.
    + by exists "", (String c name).
    + destruct (IH H) as (pre & s & -> & Hs). by exists (String c pre), s.
Qed.

Lemma fnmatch_literal_inv lit s :
  has_magic lit = false → fnmatch lit s = true → s = lit.
Proof.
  revert s. induction lit as [|c lit IH]; intros s.
  - intros _. by destruct s.
  - intros (H1 & H2 & H3 & Hlit)%has_magic_cons. unfold fnmatch.
    rewrite translate_literal by done. cbn [matches token_char].
    destruct s as [|d s]; [done|].
    intros [Hcd Hs]%andb_true_iff. apply Ascii.eqb_eq in Hcd as ->.
    f_equal. by apply IH.
Qed.

Lemma fnmatch_literal_prefix_inv lit pat s :
  has_magic lit = false → fnmatch (lit +:+ pat) s = true →
  ∃ r, s = lit +:+ r ∧ fnmatch pat r = true.
Proof.
  revert s. induction lit as [|c lit IH]; intros s.
  - intros _ H. by exists s.
  - intros (H1 & H2 & H3 & Hlit)%has_magic_cons.
    change (String c lit +:+ pat) with (String c (lit +:+ pat)). unfold fnmatch.
    rewrite translate_literal by done. cbn [matches token_char].
    destruct s as [|d s]; [done|].
    intros [Hcd Hs]%andb_true_iff. apply Ascii.eqb_eq in Hcd as ->.
    destruct (IH s Hlit Hs) as (r & -> & Hr). by exists r.
Qed.

(** Which paths [clear] goes for, by the flags of [self]. *)
Definition cleared (self : @Checkpointer V) (p : string) : bool :=
  if clear_all_checkpoints self then glob_match (checkpoint_path self) "*.pth" p
  else if clear_intermediate_checkpoints self
       then glob_match (checkpoint_path self) "checkpoint_*.pth" p
       else false.

Lemma clear_files (self : @Checkpointer V) (w : scope_world) :
  ∃ w',
    clear self w = (inr tt, w')
    ∧ dirs w' = dirs w
    ∧ ∀ p, files w' !! p = if cleared self p then None else files w !! p.
Proof.
  unfold clear, cleared. destruct (clear_all_checkpoints self).
  - rewrite io_bind_run, log_info_run.
    destruct (glob_remove (checkpoint_path self) "*.pth"
                (emit (LogInfo "Clear all checkpoints.") w))
      as (w' & -> & Hd & Hfiles & _). eauto.
  - destruct (clear_intermediate_checkpoints self).
    + rewrite io_bind_run, log_info_run.
      destruct (glob_remove (checkpoint_path self) "checkpoint_*.pth"
                  (emit (LogInfo "Clear all intermediate checkpoints.") w))
        as (w' & -> & Hd & Hfiles & _). eauto.
    + exists w. done.
Qed.

(** What [clear] goes for is a [.pth] file directly inside
    [checkpoint_path], when that has no wildcard in it. *)
Lemma cleared_is_pth (self : @Checkpointer V) p :
  has_magic (checkpoint_path self) = false →
  cleared self p = true →
  ∃ stem, p = checkpoint_path self +:+ "/" +:+ stem +:+ ".pth" ∧ occurs "/" stem = false.
Proof.
  intros Hdir. unfold cleared. rewrite !glob_match_literal by done.
  assert (Hname : ∀ name, entry_name (checkpoint_path self) p = Some name →
            (∃ stem, name = stem +:+ ".pth") →
            ∃ stem, p = checkpoint_path self +:+ "/" +:+ stem +:+ ".pth"
                    ∧ occurs "/" stem = false).
  { intros name [-> Ho]%entry_name_Some [stem ->]. exists stem. split; [done|].
    rewrite occurs_app in Ho. by apply orb_false_elim in Ho as [? _]. }
  destruct (clear_all_checkpoints self).
  - destruct (entry_name (checkpoint_path self) p) as [name|] eqn:Hentry; [|done].
    rewrite component_match_all.
    intros [_ Hm]%andb_true_iff. apply (Hname name eq_refl).
    apply fnmatch_star_inv in Hm as (pre & s & -> & Hs).
    apply fnmatch_literal_inv in Hs as ->; [|done]. eauto.
  - destruct (clear_intermediate_checkpoints self); [|done].
    destruct (entry_name (checkpoint_path self) p) as [name|] eqn:Hentry; [|done].
    rewrite component_match_intermediate.
    intros [_ Hm]%andb_true_iff. apply (Hname name eq_refl).
    change "checkpoint_*.pth" with ("checkpoint_" +:+ "*.pth") in Hm.
    apply fnmatch_literal_prefix_inv in Hm as (r & -> & Hr); [|done].
    apply fnmatch_star_inv in Hr as (pre & s & -> & Hs).
    apply fnmatch_literal_inv in Hs as ->; [|done].
    exists ("checkpoint_" +:+ pre). by rewrite string_app_assoc.
Qed.

(** What [load_best_model] returns depends on the world only through the
    best-model files. *)
Lemma load_best_model_result (self : @Checkpointer V) (model : @Model Params)
    (w w' : scope_world) :
  (∀ metric, files w' !! best_model_file self metric
             = files w !! best_model_file self metric) →
  (load_best_model self model w').1 = (load_best_model self model w).1.
Proof.
  intros Hsame. unfold load_best_model.
  destruct (checkpoint_metric self) as [[|[metric mode] rest]|]; [done| |done].
  cbn [fmap list_fmap fst].
  destruct (bool_decide (metric ∉ dom (best_metric_dict self))); [done|].
  rewrite !io_bind_run, !log_info_run, !io_bind_run. unfold torch_load, emit.
  cbn [files]. rewrite Hsame.
  by destruct (files w !! best_model_file self metric).
Qed.

End ClearScope.

(** X11.  When [checkpoint_path] has none of the wildcard characters [*],
    [?], [[] in it (and no directory is named like a snapshot of it),
    [clear] returns normally and touches no directory; a file it deletes
    is a [.pth] file directly inside [checkpoint_path], and every other
    file is left as it was; clearing a second time deletes nothing more. *)
Theorem clear_only_deletes_pth_files_of_checkpoint_path
    {V Params OptState LrState : Type} (self : @Checkpointer V)
    (w : World (@StateDict V Params OptState LrState)) :
  has_magic (checkpoint_path self) = false →
  no_directory_listed self w →
  ∃ w',
    clear self w = (inr tt, w')
    ∧ dirs w' = dirs w
    ∧ (∀ p, files w' !! p = files w !! p
            ∨ (files w' !! p = None
               ∧ ∃ stem, p = checkpoint_path self +:+ "/" +:+ stem +:+ ".pth"
                         ∧ occurs "/" stem = false))
    ∧ ∃ w'', clear self w' = (inr tt, w'') ∧ files w'' = files w'.
Proof.
  intros Hdir _.
  destruct (clear_files self w) as (w' & Hrun & Hdirs & Hfiles).
  destruct (clear_files self w') as (w'' & Hrun' & _ & Hfiles').
  exists w'. split; [done|]. split; [done|]. split.
  - intros p. rewrite Hfiles. destruct (cleared self p) eqn:Hc; [|by left].
    right. split; [done|]. by apply cleared_is_pth.
  - exists w''. split; [done|]. apply map_eq. intros p.
    rewrite Hfiles', Hfiles. by destruct (cleared self p).
Qed.

Lemma clear_only_deletes_pth_files_of_checkpoint_path_witness :
  ∃ w',
    clear (with_flags true false) some_snapshots = (inr tt, w')
    ∧ dirs w' = dirs some_snapshots
    ∧ (∀ p, files w' !! p = files some_snapshots !! p
            ∨ (files w' !! p = None
               ∧ ∃ stem, p = checkpoint_path (with_flags true false) +:+ "/" +:+ stem
                             +:+ ".pth"
                         ∧ occurs "/" stem = false))
    ∧ ∃ w'', clear (with_flags true false) w' = (inr tt, w'') ∧ files w'' = files w'.
Proof.
  apply (clear_only_deletes_pth_files_of_checkpoint_path (with_flags true false)
           some_snapshots).
  - reflexivity.
  - apply no_directory_listed_some_snapshots.
Defined.

(** X12.  [clear] does not reset the ledger: after [clear] with
    [clear_all_checkpoints] set, under a [checkpoint_path] with none of the
    wildcard characters [*], [?], [[] in it (and with no directory named
    like a snapshot of it), a checkpointer that has a best for the first
    key of [checkpoint_metric] can no longer restore it, and
    [load_best_model] raises [FileNotFoundError]. *)
Theorem load_best_model_after_clear_all_raises
    {V Params OptState LrState : Type} (self : @Checkpointer V) (model : @Model Params)
    (w : World (@StateDict V Params OptState LrState)) metric mode rest :
  has_magic (checkpoint_path self) = false →
  no_directory_listed self w →
  clear_all_checkpoints self = true →
  checkpoint_metric self = Some ((metric, mode) :: rest) →
  is_Some (best_metric_dict self !! metric) →
  ∃ w' w'',
    clear self w = (inr tt, w')
    ∧ load_best_model self model w' = (inl FileNotFoundError, w'').
Proof.
  intros Hdir _ Hall Hcm Hentry.
  destruct (clear_files self w) as (w' & Hrun & _ & Hfiles).
  eexists w', _. split; [done|].
  apply (load_best_model_file_missing self model w' metric mode rest Hcm Hentry).
  rewrite Hfiles. unfold cleared. by rewrite Hall, glob_all_best_model_file.
Qed.

Lemma load_best_model_after_clear_all_raises_witness :
  ∃ w' w'',
    clear (with_flags false true) some_snapshots = (inr tt, w')
    ∧ load_best_model (with_flags false true) (mkModel "fresh" tt) w'
      = (inl FileNotFoundError, w'').
Proof.
  apply (load_best_model_after_clear_all_raises (with_flags false true)
           (mkModel "fresh" tt) some_snapshots "a/b" "max" []).
  - reflexivity.
  - apply no_directory_listed_some_snapshots.
  - reflexivity.
  - reflexivity.
  - vm_compute. eauto.
Defined.

(** X13.  Without [clear_all_checkpoints], [clear] takes nothing away from
    [load_best_model]: after it, with or without
    [clear_intermediate_checkpoints], [load_best_model] returns what it
    would have returned before. *)
Theorem clear_intermediate_keeps_best_model
    {V Params OptState LrState : Type} (self : @Checkpointer V) (model : @Model Params)
    (w : World (@StateDict V Params OptState LrState)) :
  clear_all_checkpoints self = false →
  ∃ w',
    clear self w = (inr tt, w')
    ∧ (load_best_model self model w').1 = (load_best_model self model w).1.
Proof.
  intros Hall. destruct (clear_files self w) as (w' & Hrun & _ & Hfiles).
  exists w'. split; [done|]. apply load_best_model_result.
  intros metric. rewrite Hfiles. unfold cleared. rewrite Hall.
  destruct (clear_intermediate_checkpoints self); [|done].
  by rewrite glob_intermediate_best_model_file.
Qed.

Lemma clear_intermediate_keeps_best_model_witness :
  ∃ w',
    clear (with_flags true false) some_snapshots = (inr tt, w')
    ∧ (load_best_model (with_flags true false) (mkModel "fresh" tt) w').1
      = (load_best_model (with_flags true false) (mkModel "fresh" tt) some_snapshots).1.
Proof.
  apply (clear_intermediate_keeps_best_model (with_flags true false)
           (mkModel "fresh" tt) some_snapshots).
  reflexivity.
Defined.

(** ** The constructor on valid configurations *)

Section InitFacts.

Context {V Params OptState LrState : Type}.

Lemma dict_update_lookup {A : Type} (other : list (string * A)) :
  NoDup other.*1 →
  ∀ d : gmap string A,
    (∀ k v, (k, v) ∈ other → dict_update d other !! k = Some v)
    ∧ (∀ k, k ∉ other.*1 → dict_update d other !! k = d !! k).
Proof.
  unfold dict_update.
  induction other as [|[k0 v0] other IH]; intros Hnd d; cbn [foldl fst snd].
  - split; [intros k v Hin; by apply elem_of_nil in Hin | done].
  - apply NoDup_cons in Hnd as [Hk0 Hnd]. destruct (IH Hnd (<[k0 := v0]> d)) as [IH1 IH2].
    split.
    + intros k v [[= -> ->]|Hin]%elem_of_cons.
      * rewrite IH2 by done. by rewrite lookup_insert_eq.
      * by apply IH1.
    + intros k Hk. cbn [fmap list_fmap fst] in Hk.
      apply not_elem_of_cons in Hk as [Hne Hk].
      rewrite IH2 by done. by rewrite lookup_insert_ne.
Qed.

Lemma with_directory_facts (path : string)
    (w : World (@StateDict V Params OptState LrState)) :
  files (with_directory path w) = files w
  ∧ (path ∈ dirs (with_directory path w) ∨ is_Some (files w !! path))
  ∧ (path ∈ dirs w ∨ is_Some (files w !! path) → with_directory path w = w).
Proof.
  unfold with_directory.
  destruct (bool_decide (path ∈ dirs w)) eqn:Hd; cbn [orb].
  - apply bool_decide_eq_true in Hd. eauto.
  - destruct (bool_decide (is_Some (files w !! path))) eqn:Hf.
    + apply bool_decide_eq_true in Hf. eauto.
    + apply bool_decide_eq_false in Hd, Hf. cbn [dirs files].
      split; [done|]. split; [left; set_solver|]. intros [?|?]; done.
Qed.

End InitFacts.

(** X14.  On a configuration with a positive effective frequency and only
    ["min"] and ["max"] as modes the constructor succeeds: the checkpointer
    has the configured path (or the log path), runway and flags, tracks
    [checkpoint_task_metrics] updated with [checkpoint_metric], has the
    transition flag unset and an empty ledger; no file has been touched.
    The checkpoint path is a directory afterwards unless it was a regular
    file before: [os.path.exists] accepts that file, and then no directory
    is made. *)
Theorem init_accepts_valid_config
    {V Params OptState LrState : Type} (cfg : Config)
    (w : World (@StateDict V Params OptState LrState)) :
  0 < effective_freq cfg →
  (∀ metric mode, tracked_metrics cfg !! metric = Some mode → valid_mode mode) →
  ∃ w',
    init (V := V) cfg w
    = (inr (mkCheckpointer (configured_path cfg) (effective_freq cfg)
              (cfg_counter_unit cfg) (cfg_checkpoint_metric cfg) (tracked_metrics cfg)
              (cfg_checkpoint_runway cfg) (cfg_clear_intermediate_checkpoints cfg)
              (cfg_clear_all_checkpoints cfg) false ∅), w')
    ∧ files w' = files w
    ∧ dirs w' = dirs (with_directory (configured_path cfg) w)
    ∧ (files w !! configured_path cfg = None → configured_path cfg ∈ dirs w')
    ∧ (is_Some (files w !! configured_path cfg) → dirs w' = dirs w).
Proof.
  intros Hfreq Hvalid.
  destruct (with_directory_facts (configured_path cfg) w) as (Hfiles & Hthere & Hsame).
  destruct (init_run (V := V) cfg w)
    as [[Hle _]|(_ & w2 & Hd & Hf & [[(metric & mode & Hmode & Hbad) _]|[_ Hok]])].
  - lia.
  - exfalso. eauto.
  - exists w2. rewrite Hd, Hf. split; [done|]. split; [done|]. split; [done|]. split.
    + intros Hnone. destruct Hthere as [?|[? Hsome]]; [done|congruence].
    + intros Hfile. by rewrite Hsame by eauto.
Qed.

Lemma init_accepts_valid_config_witness :
  ∃ w',
    init (V := float) (Run.acc_config 10) Run.empty_world
    = (inr (mkCheckpointer (configured_path (Run.acc_config 10))
              (effective_freq (Run.acc_config 10))
              (cfg_counter_unit (Run.acc_config 10))
              (cfg_checkpoint_metric (Run.acc_config 10))
              (tracked_metrics (Run.acc_config 10))
              (cfg_checkpoint_runway (Run.acc_config 10))
              (cfg_clear_intermediate_checkpoints (Run.acc_config 10))
              (cfg_clear_all_checkpoints (Run.acc_config 10)) false ∅), w')
    ∧ files w' = files Run.empty_world
    ∧ dirs w' = dirs (with_directory (configured_path (Run.acc_config 10)) Run.empty_world)
    ∧ (files Run.empty_world !! configured_path (Run.acc_config 10) = None →
       configured_path (Run.acc_config 10) ∈ dirs w')
    ∧ (is_Some (files Run.empty_world !! configured_path (Run.acc_config 10)) →
       dirs w' = dirs Run.empty_world).
Proof.
  apply (init_accepts_valid_config (V := float) (Run.acc_config 10) Run.empty_world).
  - reflexivity.
  - intros metric mode H.
    change (tracked_metrics (Run.acc_config 10)) with ({["acc" := "max"]} : gmap string string)
      in H.
    apply lookup_singleton_Some in H as [_ <-]. by right.
Defined.

(** X15.  In the tracked metrics, [checkpoint_metric] wins over
    [checkpoint_task_metrics]: a metric of [checkpoint_metric] has the mode
    given there, and any other metric the mode [checkpoint_task_metrics]
    gives it, if any. *)
Theorem checkpoint_metric_takes_precedence
    (cfg : Config) (metrics : list (string * string)) :
  cfg_checkpoint_metric cfg = Some metrics →
  NoDup metrics.*1 →
  (∀ metric mode, (metric, mode) ∈ metrics → tracked_metrics cfg !! metric = Some mode)
  ∧ (∀ metric, metric ∉ metrics.*1 →
       tracked_metrics cfg !! metric
       = default ∅ (cfg_checkpoint_task_metrics cfg) !! metric).
Proof.
  intros Hcm Hnd. unfold tracked_metrics. rewrite Hcm. cbn [default].
  apply dict_update_lookup. exact Hnd.
Qed.

(** A configuration whose two dictionaries disagree on ["acc"]. *)
Definition conflicting_config : Config :=
  mkConfig "logs" 1 "epoch" None 1 (Some [("acc", "max")])
    (Some {["acc" := "min"; "loss" := "min"]}) 0 false false.

Lemma checkpoint_metric_takes_precedence_witness :
  (∀ metric mode, (metric, mode) ∈ [("acc", "max")] →
     tracked_metrics conflicting_config !! metric = Some mode)
  ∧ (∀ metric, metric ∉ [("acc", "max")].*1 →
       tracked_metrics conflicting_config !! metric
       = default ∅ (cfg_checkpoint_task_metrics conflicting_config) !! metric).
Proof.
  apply (checkpoint_metric_takes_precedence conflicting_config [("acc", "max")]).
  - reflexivity.
  - repeat constructor. set_solver.
Defined.

(** X16.  Whether it then succeeds or raises, the constructor makes sure of
    the checkpoint directory and nothing else: afterwards the path exists,
    no file has changed, and when the path existed already the directories
    are as they were. *)
Theorem init_sets_up_directory_only
    {V Params OptState LrState : Type} (cfg : Config)
    (w : World (@StateDict V Params OptState LrState)) :
  ∃ result w',
    init (V := V) cfg w = (result, w')
    ∧ files w' = files w
    ∧ (configured_path cfg ∈ dirs w' ∨ is_Some (files w' !! configured_path cfg))
    ∧ dirs w' = (if bool_decide (configured_path cfg ∈ dirs w)
                    || bool_decide (is_Some (files w !! configured_path cfg))
                 then dirs w else {[configured_path cfg]} ∪ dirs w).
Proof.
  destruct (with_directory_facts (configured_path cfg) w) as (Hfiles & Hthere & _).
  assert (Hdirs : dirs (with_directory (configured_path cfg) w)
                  = (if bool_decide (configured_path cfg ∈ dirs w)
                        || bool_decide (is_Some (files w !! configured_path cfg))
                     then dirs w else {[configured_path cfg]} ∪ dirs w)).
  { unfold with_directory. by destruct (_ || _). }
  destruct (init_run (V := V) cfg w)
    as [[_ Hrun]|(_ & w2 & Hd & Hf & [[_ Hrun]|[_ Hrun]])].
  - eexists _, _. split; [exact Hrun|]. rewrite Hfiles. eauto.
  - eexists _, _. split; [exact Hrun|]. rewrite Hf, Hd, Hfiles. eauto.
  - eexists _, _. split; [exact Hrun|]. rewrite Hf, Hd, Hfiles. eauto.
Qed.

(** ** [get_batches] on sources that do not keep their contract *)

Section Epoch.

Context {Tensor : Type}.

(** The source can give the [len] batches it declares, each with the
    unique-id field; it may hold more. *)
Definition sufficient (dataloader : DataLoader Tensor) : Prop :=
  (len dataloader ≤ length (batches dataloader))%nat
  ∧ Forall (λ b, is_Some (b.1 !! uid dataloader))
      (take (len dataloader) (batches dataloader)).

(** The first [len] batches of a source, tagged. *)
Definition epoch_of (dataloader : DataLoader Tensor) : list (option (TaskBatch Tensor)) :=
  tagged dataloader <$> take (len dataloader) (batches dataloader).

Lemma draw_take (dataloader : DataLoader Tensor) n bs :
  (n ≤ length bs)%nat →
  Forall (λ b, is_Some (b.1 !! uid dataloader)) (take n bs) →
  ∃ yielded,
    draw (task_to_label_dict dataloader) (data_name dataloader) n bs
         (split dataloader) (uid dataloader) = (yielded, None)
    ∧ Some <$> yielded = tagged dataloader <$> take n bs.
Proof.
  revert bs. induction n as [|n IH]; intros bs Hn Huid.
  - exists []. by rewrite take_0.
  - destruct bs as [|[X Y] bs]; [cbn [length] in Hn; lia|].
    cbn [length] in Hn. cbn [take] in Huid.
    apply Forall_cons in Huid as [[uids Hu] Huid]. cbn [fst] in Hu.
    destruct (IH bs ltac:(lia) Huid) as (yielded & Hrun & Htag).
    cbn [draw]. rewrite Hu, Hrun. eexists. split; [reflexivity|].
    cbn [take fmap list_fmap]. unfold tagged at 1. cbn [fst snd]. rewrite Hu.
    cbn [mbind option_bind]. f_equal. exact Htag.
Qed.

Lemma draw_short (dataloader : DataLoader Tensor) n bs :
  (length bs < n)%nat →
  Forall (λ b, is_Some (b.1 !! uid dataloader)) bs →
  ∃ yielded,
    draw (task_to_label_dict dataloader) (data_name dataloader) n bs
         (split dataloader) (uid dataloader) = (yielded, Some RuntimeError)
    ∧ Some <$> yielded = tagged dataloader <$> bs.
Proof.
  revert bs. induction n as [|n IH]; intros bs Hn Huid; [lia|].
  destruct bs as [|[X Y] bs].
  - exists []. done.
  - cbn [length] in Hn. apply Forall_cons in Huid as [[uids Hu] Huid]. cbn [fst] in Hu.
    destruct (IH bs ltac:(lia) Huid) as (yielded & Hrun & Htag).
    cbn [draw]. rewrite Hu, Hrun. eexists. split; [reflexivity|].
    cbn [fmap list_fmap]. unfold tagged at 1. cbn [fst snd]. rewrite Hu.
    cbn [mbind option_bind]. f_equal. exact Htag.
Qed.

Lemma draw_missing (dataloader : DataLoader Tensor) n before b after :
  (length before < n)%nat →
  Forall (λ b, is_Some (b.1 !! uid dataloader)) before →
  b.1 !! uid dataloader = None →
  ∃ yielded,
    draw (task_to_label_dict dataloader) (data_name dataloader) n (before ++ b :: after)
         (split dataloader) (uid dataloader) = (yielded, Some KeyError)
    ∧ Some <$> yielded = tagged dataloader <$> before.
Proof.
  revert before. induction n as [|n IH]; intros before Hn Huid Hb; [lia|].
  destruct before as [|[X Y] before].
  - exists []. cbn [app draw]. destruct b as [X Y]. cbn [fst] in Hb. by rewrite Hb.
  - cbn [length] in Hn. apply Forall_cons in Huid as [[uids Hu] Huid]. cbn [fst] in Hu.
    destruct (IH before ltac:(lia) Huid Hb) as (yielded & Hrun & Htag).
    cbn [app draw]. rewrite Hu, Hrun. eexists. split; [reflexivity|].
    cbn [fmap list_fmap]. unfold tagged at 1. cbn [fst snd]. rewrite Hu.
    cbn [mbind option_bind]. f_equal. exact Htag.
Qed.

(** What the inner loop does on any iterator. *)
Lemma draw_any (dataloader : DataLoader Tensor) n bs :
  ∃ yielded raised,
    draw (task_to_label_dict dataloader) (data_name dataloader) n bs
         (split dataloader) (uid dataloader) = (yielded, raised)
    ∧ Some <$> yielded `prefix_of` tagged dataloader <$> take n bs
    ∧ (raised = None →
       Some <$> yielded = tagged dataloader <$> take n bs
       ∧ (n ≤ length bs)%nat
       ∧ Forall (λ b, is_Some (b.1 !! uid dataloader)) (take n bs))
    ∧ (raised = None ∨ raised = Some RuntimeError ∨ raised = Some KeyError).
Proof.
  revert bs. induction n as [|n IH]; intros bs.
  - exists [], None. rewrite take_0. cbn [length]. repeat split; eauto with lia.
  - destruct bs as [|[X Y] bs].
    + exists [], (Some RuntimeError). repeat split; eauto; done.
    + cbn [draw]. destruct (X !! uid dataloader) as [uids|] eqn:Hu.
      * destruct (IH bs) as (yielded & raised & -> & Hpre & Hnone & Hkind).
        eexists _, _. split; [reflexivity|].
        assert (Htag : tagged dataloader (X, Y)
                       = Some (uids, X, Y, task_to_label_dict dataloader,
                               data_name dataloader, split dataloader)).
        { unfold tagged. cbn [fst snd]. by rewrite Hu. }
        cbn [take fmap list_fmap length]. rewrite Htag. split; [|split; [|done]].
        -- by apply prefix_cons.
        -- intros Hr. destruct (Hnone Hr) as (-> & Hn & Huid).
           split; [done|]. split; [lia|]. constructor; [|done]. cbn [fst]. eauto.
      * exists [], (Some KeyError). split; [done|]. split; [apply prefix_nil|].
        split; [done|]. eauto.
Qed.

Lemma get_batches_app (l1 l2 : list (DataLoader Tensor)) :
  get_batches (l1 ++ l2)
  = match get_batches l1 with
    | (yielded, Some e) => (yielded, Some e)
    | (yielded, None) =>
        let '(rest, raised) := get_batches l2 in (yielded ++ rest, raised)
    end.
Proof.
  induction l1 as [|dataloader l1 IH].
  - cbn [app]. change (get_batches (Tensor := Tensor) []) with
      (@nil (TaskBatch Tensor), @None exn).
    by destruct (get_batches l2).
  - change ((dataloader :: l1) ++ l2) with (dataloader :: (l1 ++ l2)).
    rewrite !get_batches_cons, IH.
    destruct (draw _ _ _ _ _ _) as [first [e|]]; [done|].
    destruct (get_batches l1) as [yielded [e|]]; [done|].
    destruct (get_batches l2) as [rest raised]. by rewrite app_assoc.
Qed.

Lemma get_batches_sufficient (dataloaders : list (DataLoader Tensor)) :
  Forall sufficient dataloaders →
  ∃ yielded,
    get_batches dataloaders = (yielded, None)
    ∧ Some <$> yielded = mjoin (epoch_of <$> dataloaders).
Proof.
  induction 1 as [|dataloader dataloaders [Hlen Huid] _ (rest & IH & Htag)].
  - exists []. done.
  - rewrite get_batches_cons.
    destruct (draw_take dataloader _ _ Hlen Huid) as (first & -> & Hfirst).
    rewrite IH. exists (first ++ rest). split; [done|].
    rewrite fmap_app, Hfirst, Htag. reflexivity.
Qed.

End Epoch.

(** X17.  A source that holds more batches than it declares is read only
    up to its declared count: when every source can give its [len]
    batches, [get_batches] runs to the end and yields the first [len]
    batches of each source, tagged, in the order of the list; the surplus
    is never drawn. *)
Theorem get_batches_reads_declared_count_only
    {Tensor : Type} (dataloaders : list (DataLoader Tensor)) :
  Forall sufficient dataloaders →
  ∃ yielded,
    get_batches dataloaders = (yielded, None)
    ∧ Some <$> yielded
      = mjoin ((λ dataloader,
                  tagged dataloader <$> take (len dataloader) (batches dataloader))
               <$> dataloaders)
    ∧ length yielded = sum_list (len <$> dataloaders).
Proof.
  intros Hall. destruct (get_batches_sufficient dataloaders Hall) as (yielded & Hrun & Htag).
  exists yielded. split; [done|]. split; [exact Htag|].
  apply (f_equal length) in Htag. rewrite length_fmap in Htag. rewrite Htag.
  clear Hrun Htag. induction Hall as [|dataloader dataloaders [Hlen _] _ IH]; [done|].
  change (length (epoch_of dataloader ++ mjoin (epoch_of <$> dataloaders))
          = (len dataloader + sum_list (len <$> dataloaders))%nat).
  rewrite length_app, IH. f_equal.
  unfold epoch_of. rewrite length_fmap, length_take. lia.
Qed.

(** A source that declares two batches and holds three. *)
Definition source_surplus : DataLoader (list nat) :=
  mkDataLoader {["task_a" := "label_a"]} "uids" "long" "train" 2
    [({["uids" := [1]]}, {["label_a" := [0]]});
     ({["uids" := [2]]}, {["label_a" := [1]]});
     ({["uids" := [3]]}, {["label_a" := [0]]})]%nat.

Lemma get_batches_reads_declared_count_only_witness :
  ∃ yielded,
    get_batches [source_surplus; source_2] = (yielded, None)
    ∧ Some <$> yielded
      = mjoin ((λ dataloader,
                  tagged dataloader <$> take (len dataloader) (batches dataloader))
               <$> [source_surplus; source_2])
    ∧ length yielded = sum_list (len <$> [source_surplus; source_2]).
Proof.
  apply (get_batches_reads_declared_count_only [source_surplus; source_2]).
  repeat constructor; simpl; eauto.
Defined.

(** X18.  A source whose iterator ends before its declared count stops the
    whole generator there: after the batches of the sources before it and
    its own, the [StopIteration] of [next] ends the generator with
    [RuntimeError] (Python 3.7 and later), and the sources after it are not
    read at all. *)
Theorem get_batches_stops_at_short_source
    {Tensor : Type} (before : list (DataLoader Tensor)) (dataloader : DataLoader Tensor)
    (after : list (DataLoader Tensor)) :
  Forall sufficient before →
  (length (batches dataloader) < len dataloader)%nat →
  Forall (λ b, is_Some (b.1 !! uid dataloader)) (batches dataloader) →
  ∃ yielded,
    get_batches (before ++ dataloader :: after) = (yielded, Some RuntimeError)
    ∧ Some <$> yielded
      = mjoin (epoch_of <$> before) ++ (tagged dataloader <$> batches dataloader).
Proof.
  intros Hbefore Hshort Huid.
  destruct (get_batches_sufficient before Hbefore) as (first & Hrun & Hfirst).
  destruct (draw_short dataloader _ _ Hshort Huid) as (own & Hdraw & Hown).
  rewrite get_batches_app, Hrun, get_batches_cons, Hdraw.
  exists (first ++ own). split; [done|]. by rewrite fmap_app, Hfirst, Hown.
Qed.

(** A source that declares three batches and holds one. *)
Definition source_short : DataLoader (list nat) :=
  mkDataLoader {["task_c" := "label_c"]} "uids" "short" "test" 3
    [({["uids" := [7]]}, {["label_c" := [1]]})]%nat.

Lemma get_batches_stops_at_short_source_witness :
  ∃ yielded,
    get_batches ([source_1] ++ source_short :: [source_2]) = (yielded, Some RuntimeError)
    ∧ Some <$> yielded
      = mjoin (epoch_of <$> [source_1]) ++ (tagged source_short <$> batches source_short).
Proof.
  apply (get_batches_stops_at_short_source [source_1] source_short [source_2]).
  - repeat constructor; simpl; eauto.
  - simpl. lia.
  - repeat constructor; simpl; eauto.
Defined.

(** X19.  A batch without the unique-id field of its source ends the
    generator with [KeyError] when it is drawn: the batches before it have
    been yielded, the batch itself and everything after it has not. *)
Theorem get_batches_raises_on_missing_uid
    {Tensor : Type} (before : list (DataLoader Tensor)) (dataloader : DataLoader Tensor)
    (after : list (DataLoader Tensor))
    (earlier : list (gmap string Tensor * gmap string Tensor))
    (b : gmap string Tensor * gmap string Tensor)
    (later : list (gmap string Tensor * gmap string Tensor)) :
  Forall sufficient before →
  batches dataloader = earlier ++ b :: later →
  (length earlier < len dataloader)%nat →
  Forall (λ b, is_Some (b.1 !! uid dataloader)) earlier →
  b.1 !! uid dataloader = None →
  ∃ yielded,
    get_batches (before ++ dataloader :: after) = (yielded, Some KeyError)
    ∧ Some <$> yielded
      = mjoin (epoch_of <$> before) ++ (tagged dataloader <$> earlier).
Proof.
  intros Hbefore Hbatches Hlen Huid Hb.
  destruct (get_batches_sufficient before Hbefore) as (first & Hrun & Hfirst).
  destruct (draw_missing dataloader _ _ _ later Hlen Huid Hb) as (own & Hdraw & Hown).
  rewrite get_batches_app, Hrun, get_batches_cons, Hbatches, Hdraw.
  exists (first ++ own). split; [done|]. by rewrite fmap_app, Hfirst, Hown.
Qed.

(** A source whose second batch has no ["uids"]. *)
Definition source_no_uid : DataLoader (list nat) :=
  mkDataLoader {["task_d" := "label_d"]} "uids" "broken" "train" 3
    [({["uids" := [1]]}, {["label_d" := [1]]});
     ({["x" := [5]]}, {["label_d" := [0]]});
     ({["uids" := [3]]}, {["label_d" := [0]]})]%nat.

Lemma get_batches_raises_on_missing_uid_witness :
  ∃ yielded,
    get_batches ([source_1] ++ source_no_uid :: [source_2]) = (yielded, Some KeyError)
    ∧ Some <$> yielded
      = mjoin (epoch_of <$> [source_1])
        ++ (tagged source_no_uid
              <$> [(({["uids" := [1]]}, {["label_d" := [1]]})
                      : gmap string (list nat) * gmap string (list nat))%nat]).
Proof.
  apply (get_batches_raises_on_missing_uid [source_1] source_no_uid [source_2]
           [({["uids" := [1]]}, {["label_d" := [1]]})]%nat
           ({["x" := [5]]}, {["label_d" := [0]]})%nat
           [({["uids" := [3]]}, {["label_d" := [0]]})]%nat).
  - repeat constructor; simpl; eauto.
  - reflexivity.
  - simpl. lia.
  - repeat constructor; simpl; eauto.
  - reflexivity.
Defined.

(** X20.  On any list of sources, what [get_batches] yields is a prefix of
    the tagged first [len] batches of the sources in order, so never more
    tuples than the declared counts add up to; it ends without an
    exception exactly when every source can give its declared batches,
    and otherwise on [RuntimeError] (a source ran out: the [StopIteration]
    of [next] inside the generator, Python 3.7 and later) or [KeyError]. *)
Theorem get_batches_yields_a_prefix
    {Tensor : Type} (dataloaders : list (DataLoader Tensor)) :
  ∃ yielded raised,
    get_batches dataloaders = (yielded, raised)
    ∧ Some <$> yielded `prefix_of` mjoin (epoch_of <$> dataloaders)
    ∧ (length yielded ≤ sum_list (len <$> dataloaders))%nat
    ∧ (raised = None ↔ Forall sufficient dataloaders)
    ∧ (raised = None ∨ raised = Some RuntimeError ∨ raised = Some KeyError).
Proof.
  induction dataloaders as [|dataloader dataloaders
                            (rest & raised & IH & Hpre & Hcount & Hiff & Hkind)].
  - exists [], None. repeat split; eauto.
  - rewrite get_batches_cons, IH.
    destruct (draw_any dataloader (len dataloader) (batches dataloader))
      as (first & e & Hdraw & Hfirst & Hnone & Hfkind).
    rewrite Hdraw.
    assert (Hflen : (length first ≤ len dataloader)%nat).
    { apply prefix_length in Hfirst. rewrite !length_fmap, length_take in Hfirst. lia. }
    change (mjoin (epoch_of <$> dataloader :: dataloaders))
      with (epoch_of dataloader ++ mjoin (epoch_of <$> dataloaders)).
    change (sum_list (len <$> dataloader :: dataloaders))
      with (len dataloader + sum_list (len <$> dataloaders))%nat.
    fold (epoch_of dataloader) in Hfirst.
    destruct e as [e|].
    + exists first, (Some e). split; [done|]. split; [by apply prefix_app_r|].
      split; [lia|]. split; [|done]. split; [done|].
      intros [[Hlen Huid] _]%Forall_cons.
      destruct (draw_take dataloader _ _ Hlen Huid) as (? & Hrun & _).
      rewrite Hdraw in Hrun. discriminate Hrun.
    + destruct (Hnone eq_refl) as (Heq & Hlen & Huid).
      exists (first ++ rest), raised. split; [done|]. split; [|split; [|split; [|done]]].
      * rewrite fmap_app, Heq. by apply prefix_app.
      * rewrite length_app. lia.
      * rewrite Hiff. split.
        -- intros Hall. by constructor.
        -- by intros [_ ?]%Forall_cons.
Qed.

(** * [emmental.metrics.spearman_correlation] *)

Section SpearmanCorrelation.

(** [Array] is a 1-d [np.array], [Probs] whatever [np.vstack] is given. *)
Context {Array Probs Uids : Type}.

(** [np.vstack(probs).squeeze()] and [scipy.stats.spearmanr], which on 1-d
    input gives two scalars; both may raise. *)
Variable vstack_squeeze : Probs → exn + Array.
Variable spearmanr : Array → Array → exn + (float * float).

Definition spearman_correlation_scorer (golds : Array) (probs : Probs) (preds : Array)
    (uids : option Uids) (return_pvalue : bool) : exn + gmap string float :=
  match vstack_squeeze probs with
  | inl e => inl e
  | inr probs =>
      match spearmanr golds probs with
      | inl e => inl e
      | inr (correlation, pvalue) =>
          let '(correlation, pvalue) :=
            if PrimFloat.is_nan correlation then (0%float, 0%float)
            else (correlation, pvalue) in
          if return_pvalue
          then inr (<["spearman_correlation" := correlation]>
                      {["spearman_pvalue" := pvalue]})
          else inr {["spearman_correlation" := correlation]}
      end
  end.

End SpearmanCorrelation.

(** X21.  Whenever the two library calls return, the scorer returns a
    dictionary whose ["spearman_correlation"] is a number, never NaN: the
    coefficient of [spearmanr], or 0.0 where that is undefined.
    ["spearman_pvalue"] is there exactly when [return_pvalue] is set, and is
    0.0 as well where the coefficient is undefined; there is no other key. *)
Theorem spearman_correlation_scorer_is_never_nan
    {Array Probs Uids : Type}
    (vstack_squeeze : Probs → exn + Array)
    (spearmanr : Array → Array → exn + (float * float))
    (golds : Array) (probs : Probs) (preds : Array) (uids : option Uids)
    (return_pvalue : bool) (stacked : Array) (coefficient pvalue : float) :
  vstack_squeeze probs = inr stacked →
  spearmanr golds stacked = inr (coefficient, pvalue) →
  ∃ scores correlation,
    spearman_correlation_scorer vstack_squeeze spearmanr golds probs preds uids return_pvalue
    = inr scores
    ∧ scores !! "spearman_correlation" = Some correlation
    ∧ PrimFloat.is_nan correlation = false
    ∧ correlation = (if PrimFloat.is_nan coefficient then 0%float else coefficient)
    ∧ scores !! "spearman_pvalue"
      = (if return_pvalue
         then Some (if PrimFloat.is_nan coefficient then 0%float else pvalue)
         else None)
    ∧ ∀ key, is_Some (scores !! key) →
        key = "spearman_correlation" ∨ key = "spearman_pvalue".
Proof.
  intros Hstack Hrank. unfold spearman_correlation_scorer. rewrite Hstack, Hrank.
  assert (Hnan : PrimFloat.is_nan
                   (if PrimFloat.is_nan coefficient then 0%float else coefficient) = false).
  { destruct (PrimFloat.is_nan coefficient) eqn:E; [reflexivity | exact E]. }
  assert (Hkeys : ∀ (c p : float) (key : string),
             is_Some ((<["spearman_correlation" := c]>
                         ({["spearman_pvalue" := p]} : gmap string float)) !! key) →
             key = "spearman_correlation" ∨ key = "spearman_pvalue").
  { intros c p key [v Hv].
    apply lookup_insert_Some in Hv as [[<- _]|[_ Hv]]; [by left|].
    apply lookup_singleton_Some in Hv as [<- _]. by right. }
  assert (Hkey : ∀ (c : float) (key : string),
             is_Some (({["spearman_correlation" := c]} : gmap string float) !! key) →
             key = "spearman_correlation" ∨ key = "spearman_pvalue").
  { intros c key [v Hv]. apply lookup_singleton_Some in Hv as [<- _]. by left. }
  destruct (PrimFloat.is_nan coefficient) eqn:E; destruct return_pvalue;
    eexists _, _; (split; [reflexivity|]);
    repeat (split; [first [done | by rewrite lookup_insert_eq
                          | by rewrite lookup_singleton_eq
                          | by rewrite lookup_insert_ne, lookup_singleton_eq
                          | by rewrite lookup_singleton_ne]|]);
    eauto.
Qed.

(** Stand-ins for the two library calls on lists of numbers: stacking
    flattens, and the coefficient of anything is undefined. *)
Definition flatten (probs : list (list float)) : exn + list float :=
  match probs with
  | [] => inl ValueError
  | _ => inr (concat probs)
  end.

Definition undefined_rank (golds probs : list float) : exn + (float * float) :=
  inr (PrimFloat.nan, PrimFloat.nan).

Lemma spearman_correlation_scorer_is_never_nan_witness :
  ∃ scores correlation,
    spearman_correlation_scorer (Uids := list string) flatten undefined_rank
      [1%float; 1%float] [[0.5%float]; [0.25%float]] [] None true
    = inr scores
    ∧ scores !! "spearman_correlation" = Some correlation
    ∧ PrimFloat.is_nan correlation = false
    ∧ correlation = (if PrimFloat.is_nan PrimFloat.nan then 0%float else PrimFloat.nan)
    ∧ scores !! "spearman_pvalue"
      = (if true
         then Some (if PrimFloat.is_nan PrimFloat.nan then 0%float else PrimFloat.nan)
         else None)
    ∧ ∀ key, is_Some (scores !! key) →
        key = "spearman_correlation" ∨ key = "spearman_pvalue".
Proof.
  apply (spearman_correlation_scorer_is_never_nan (Uids := list string)
           flatten undefined_rank [1%float; 1%float] [[0.5%float]; [0.25%float]] [] None true
           [0.5%float; 0.25%float] PrimFloat.nan PrimFloat.nan);
    reflexivity.
Defined.
